(** * The Bresser 6-in-1 USB driver of weewx, [bin/weewx/drivers/bresser.py]

    A shallow embedding of the class [BresserUSB]: the port handling
    ([openPort], [closePort], [_find_device]), the time-set ([setTime]),
    the frame reassembly ([read_usb_block], [read_usb_dataset]) and the
    packet loop ([genLoopPackets]).

    The driver is effectful code: it reads the host clock, sleeps, talks to
    the USB device and raises or catches exceptions.  It is embedded in a
    state-and-exception monad [M] over a record [Sys] that holds the two
    attributes of the object that change ([devh], [the_time]) together with
    the environment: the host clock, scripts of what the USB side will
    answer, and the trace of what the driver did.

    Times are exact counts of microseconds (the resolution of Python's
    [datetime]); [time.time()] is read at that resolution and float rounding
    below it is outside the model.  The attributes [timeout] and [debug]
    only parametrise the blocking time of a read and are not represented. *)

From Stdlib Require Import ZArith Lia String Ascii List.
From Stdlib.Strings Require Import Byte.
From stdpp Require Import gmap strings list fin_maps.

Local Open Scope Z_scope.

(** ** Python values used by the driver *)

(** [datetime.datetime], naive (no tzinfo), as the driver uses it. *)
Record datetime := mkDatetime {
  year : Z; month : Z; day : Z;
  hour : Z; minute : Z; second : Z; microsecond : Z }.

(** The proleptic Gregorian ordinal of Python's [datetime] module
    ([_is_leap], [_days_before_year], [_days_before_month], [_ymd2ord]). *)
Definition is_leap (y : Z) : bool :=
  (y mod 4 =? 0) && (negb (y mod 100 =? 0) || (y mod 400 =? 0)).

Definition days_before_year (y : Z) : Z :=
  let y := y - 1 in y * 365 + y / 4 - y / 100 + y / 400.

Definition days_in_month (y m : Z) : Z :=
  if m =? 2 then (if is_leap y then 29 else 28)
  else if (m =? 4) || (m =? 6) || (m =? 9) || (m =? 11) then 30 else 31.

Definition days_before_month (y m : Z) : Z :=
  nth (Z.to_nat m) [0; 0; 31; 59; 90; 120; 151; 181; 212; 243; 273; 304; 334] 0
  + (if (2 <? m) && is_leap y then 1 else 0).

Definition toordinal (d : datetime) : Z :=
  days_before_year (year d) + days_before_month (year d) (month d) + day d.

(** [(a - b).total_seconds()], in microseconds.  [datetime.__sub__] builds
    [timedelta(days1 - days2, secs1 - secs2, us1 - us2)]; its total is this
    number, exactly. *)
Definition total_micros (a b : datetime) : Z :=
  let days := toordinal a - toordinal b in
  let secs := (second a + minute a * 60 + hour a * 3600)
              - (second b + minute b * 60 + hour b * 3600) in
  (days * 86400 + secs) * 1000000 + (microsecond a - microsecond b).

Definition seconds (n : Z) : Z := n * 1000000.

(** Exceptions that can travel through the driver. *)
Inductive exn :=
| USBError        (* usb.USBError, usb.core.USBError *)
| WeeWxIOError    (* weewx.WeeWxIOError *)
| NameError
| AttributeError
| IndexError
| KeyError.

(** The values stored in a loop packet. *)
Inductive pvalue :=
| PInt (z : Z)
| PStr (s : string)
| PUnits (tag : Z).

(** A packet is a Python [dict] with string keys. *)
Abbreviation packet := (gmap string pvalue).

(** A dict display [{k1: v1, k2: v2, ...}]: the items are stored from left
    to right, a later one replacing an earlier one with the same key. *)
Definition dict_literal (items : list (string * pvalue)) : packet :=
  foldl (λ m kv, <[kv.1 := kv.2]> m) ∅ items.

(** ** The environment *)

(** What one call of [read_usb_block] meets: the control transfer fails, the
    interrupt read fails after blocking for [dt], or the read returns
    [data] after blocking for [took]. *)
Record rblock := mkBlock { took : Z; data : list byte }.

Inductive usb_answer :=
| ControlFails
| ReadFails (dt : Z)
| Block (r : rblock).

(** A device on the bus with the station's vendor and product id: whether
    [dev.open()] gives a handle and whether [claimInterface] succeeds. *)
Record usb_device := mkDevice { dev_opens : bool; dev_claims : bool }.

(** One enumeration of the busses by [_find_device]. *)
Record bus_answer := mkScan { scan_took : Z; scan_found : option usb_device }.

Inductive level := LOG_DEBUG | LOG_INFO | LOG_ERR | LOG_CRIT.

(** The log calls of the driver, one constructor per call site. *)
Inductive logmsg :=
| MsgDriverVersion
| MsgCannotFind
| MsgFound
| MsgUnableClaim
| MsgFailedSetTime (now : datetime)
| MsgSetTime (now : datetime)
| MsgLostUSB
| MsgBadCount (n : nat) (dataset : string)
| MsgInvalidTime
| MsgDeltaTooBig (delta : Z) (computer_now station_now : datetime).

(** What the driver does to the outside, in the order it does it. *)
Inductive event :=
| EControl (payload : list Z)     (* devh.controlMsg(...) attempted *)
| EInterruptRead                  (* devh.interruptRead(...) attempted *)
| EScan                           (* usb.busses() enumerated *)
| EOpen | EDetach | EClaim | ERelease
| ESleep (d : Z)                  (* time.sleep(d) *)
| ELog (l : level) (m : logmsg)
| EYield (p : packet).            (* yield _packet *)

Record Sys := mkSys {
  devh : option usb_device;       (* self.devh *)
  the_time : Z;                   (* self.the_time *)
  clock : Z;                      (* what time.time() returns now *)
  usb_in : list usb_answer;       (* answers to the coming read_usb_block calls *)
  ctl_in : list bool;             (* outcomes of the coming setTime transfers *)
  bus_in : list bus_answer;       (* results of the coming bus enumerations *)
  trace : list event }.

Definition set_devh (h : option usb_device) (s : Sys) : Sys :=
  mkSys h (the_time s) (clock s) (usb_in s) (ctl_in s) (bus_in s) (trace s).
Definition set_the_time (t : Z) (s : Sys) : Sys :=
  mkSys (devh s) t (clock s) (usb_in s) (ctl_in s) (bus_in s) (trace s).
Definition set_clock (t : Z) (s : Sys) : Sys :=
  mkSys (devh s) (the_time s) t (usb_in s) (ctl_in s) (bus_in s) (trace s).
Definition set_usb_in (l : list usb_answer) (s : Sys) : Sys :=
  mkSys (devh s) (the_time s) (clock s) l (ctl_in s) (bus_in s) (trace s).
Definition set_ctl_in (l : list bool) (s : Sys) : Sys :=
  mkSys (devh s) (the_time s) (clock s) (usb_in s) l (bus_in s) (trace s).
Definition set_bus_in (l : list bus_answer) (s : Sys) : Sys :=
  mkSys (devh s) (the_time s) (clock s) (usb_in s) (ctl_in s) l (trace s).
Definition add_event (e : event) (s : Sys) : Sys :=
  mkSys (devh s) (the_time s) (clock s) (usb_in s) (ctl_in s) (bus_in s)
        (trace s ++ [e]).

(** ** The monad *)

(** A call returns, raises, or is still waiting when a script of the
    environment ends ([Starved]): the model then says nothing further. *)
Inductive res (A : Type) :=
| Ret (a : A)
| Raise (e : exn)
| Starved.
Arguments Ret {A} a.
Arguments Raise {A} e.
Arguments Starved {A}.

Definition M (A : Type) : Type := Sys → res A * Sys.

#[global] Instance M_ret : MRet M := λ A a s, (Ret a, s).
#[global] Instance M_bind : MBind M := λ A B k m s,
  match m s with
  | (Ret a, s') => k a s'
  | (Raise e, s') => (Raise e, s')
  | (Starved, s') => (Starved, s')
  end.

Definition raise {A} (e : exn) : M A := λ s, (Raise e, s).
Definition starve {A} : M A := λ s, (Starved, s).

(** [try: m except <h>]: the handler sees the exception and either handles
    it or raises (again). *)
Definition try_except {A} (m : M A) (h : exn → M A) : M A := λ s,
  match m s with
  | (Raise e, s') => h e s'
  | r => r
  end.

(** [while cond: body], on at most [fuel] rounds. *)
Fixpoint while {A} (fuel : nat) (cond : A → bool) (body : A → M A) (a : A) : M A :=
  if cond a then
    match fuel with
    | O => starve
    | S n => a' ← body a; while n cond body a'
    end
  else mret a.

Definition get {A} (f : Sys → A) : M A := λ s, (Ret (f s), s).
Definition modify (f : Sys → Sys) : M unit := λ s, (Ret tt, f s).
Definition emit (e : event) : M unit := modify (add_event e).

Definition logmsg_ (l : level) (m : logmsg) : M unit := emit (ELog l m).
Definition logdbg := logmsg_ LOG_DEBUG.
Definition loginf := logmsg_ LOG_INFO.
Definition logerr := logmsg_ LOG_ERR.
Definition logcrt := logmsg_ LOG_CRIT.

Definition time_time : M Z := get clock.
Definition time_sleep (d : Z) : M unit :=
  emit (ESleep d);; modify (λ s, set_clock (clock s + d) s).
Definition elapse (d : Z) : M unit := modify (λ s, set_clock (clock s + d) s).

(** ** Constants of [__init__] *)

Definition vendor_id : Z := 0x1941.
Definition product_id : Z := 0x8021.
Definition usb_interface : Z := 0.
Definition usb_endpoint : Z := 0x81.
Definition usb_read_size : nat := 64.
Definition loop_interval : Z := 15.
Definition openport_interval : Z := 15.

(** ** Frame reassembly *)

Definition requestbytes (requesttype : string) : option (list Z) :=
  if String.eqb requesttype "d4" then Some [0xfc; 0xd4; 0x01; 0x00; 0x00; 0xe1; 0xbf; 0xfd]
  else if String.eqb requesttype "d42" then Some [0xfc; 0xd4; 0x02; 0x00; 0x00; 0xb8; 0xef; 0xfd]
  else if String.eqb requesttype "d5" then Some [0xfc; 0xd5; 0x01; 0x00; 0x00; 0x97; 0x0b; 0xfd]
  else if String.eqb requesttype "d52" then Some [0xfc; 0xd5; 0x02; 0x00; 0x00; 0xce; 0x5b; 0xfd]
  else None.

(** [read_usb_block]: one control transfer, then one interrupt read of at
    most [usb_read_size] bytes. *)
Definition read_usb_block (requesttype : string) : M (list byte) :=
  h ← get devh;
  match h with
  | None => raise AttributeError
  | Some _ =>
    match requestbytes requesttype with
    | None => raise KeyError
    | Some req =>
      script ← get usb_in;
      match script with
      | [] => starve
      | a :: rest =>
        modify (set_usb_in rest);;
        emit (EControl req);;
        match a with
        | ControlFails => raise USBError
        | ReadFails dt => emit EInterruptRead;; elapse dt;; raise USBError
        | Block r => emit EInterruptRead;; elapse (took r);;
                     mret (take usb_read_size (data r))
        end
      end
    end
  end.

(** [l[i]] on a list of byte values. *)
Definition getitem (l : list byte) (i : nat) : M Z :=
  match l !! i with
  | Some b => mret (Z.of_N (Byte.to_N b))
  | None => raise IndexError
  end.

(** [l[lo:hi]] for [0 <= lo <= hi]. *)
Definition py_slice {A} (lo hi : nat) (l : list A) : list A :=
  take (hi - lo) (drop lo l).

(** ["".join(map(chr, l))] *)
Definition join_chr (l : list byte) : string :=
  string_of_list_ascii (ascii_of_byte <$> l).

(** The local variables of [read_usb_dataset] that a read refreshes. *)
Record frame := mkFrame {
  response : list byte; packettype : Z; packetcount : Z; packetlen : Z }.

Definition next_frame : M frame :=
  response ← read_usb_block "d5";
  packettype ← getitem response 0;
  packetcount ← getitem response 5;
  packetlen ← getitem response 6;
  mret (mkFrame response packettype packetcount packetlen).

Definition is_start (f : frame) : bool := packetcount f =? 0x31.
Definition in_dataset (f : frame) : bool :=
  (packetcount f =? 0x31) || (packetcount f =? 0x32) || (packetcount f =? 0x33).

(** [response[7:7+packetlen]] as characters. *)
Definition payload (f : frame) : string :=
  join_chr (py_slice 7 (7 + Z.to_nat (packetlen f)) (response f)).

(** The body of the second loop: append the payload, read the next block. *)
Definition append_next (r : string * frame) : M (string * frame) :=
  f' ← next_frame; mret (String.append r.1 (payload r.2), f').

(** Every round of either loop starts a [read_usb_block], which takes one
    answer off [usb_in]: the number of answers bounds the rounds. *)
Definition read_usb_dataset : M string :=
  fuel ← get (λ s, length (usb_in s));
  f ← next_frame;
  f ← while fuel (λ f, negb (is_start f)) (λ _, next_frame) f;
  r ← while fuel (λ r, in_dataset r.2) append_next (EmptyString, f);
  mret r.1.

(** ** Tokens *)

(** [str.isspace] on a byte string: space, tab, newline, vertical tab, form
    feed, carriage return. *)
Definition isspace (c : ascii) : bool :=
  let n := N_of_ascii c in ((n =? 32) || ((9 <=? n) && (n <=? 13)))%N.

(** [s.split()]: the maximal runs of characters that are not whitespace.
    [cur] holds the run being read, last character first. *)
Fixpoint split_from (cur : list ascii) (s : string) : list string :=
  match s with
  | EmptyString =>
    match cur with
    | [] => []
    | _ => [string_of_list_ascii (rev cur)]
    end
  | String c s' =>
    if isspace c then
      match cur with
      | [] => split_from [] s'
      | _ => string_of_list_ascii (rev cur) :: split_from [] s'
      end
    else split_from (c :: cur) s'
  end.

Definition split (s : string) : list string := split_from [] s.

(** ** A host and a station for the worked examples *)

(** The civil date of a day count from 1970-01-01, and the naive UTC
    [datetime] of a clock reading: the [localtime] of a host set to UTC. *)
Definition civil_from_days (z : Z) : Z * Z * Z :=
  let z := z + 719468 in
  let era := z / 146097 in
  let doe := z - era * 146097 in
  let yoe := (doe - doe / 1460 + doe / 36524 - doe / 146096) / 365 in
  let doy := doe - (365 * yoe + yoe / 4 - yoe / 100) in
  let mp := (5 * doy + 2) / 153 in
  let d := doy - (153 * mp + 2) / 5 + 1 in
  let m := if mp <? 10 then mp + 3 else mp - 9 in
  (if m <=? 2 then yoe + era * 400 + 1 else yoe + era * 400, m, d).

Definition utc_datetime (t : Z) : datetime :=
  let secs := t / 1000000 in
  let sod := secs mod 86400 in
  let '(y, m, d) := civil_from_days (secs / 86400) in
  mkDatetime y m d (sod / 3600) (sod mod 3600 / 60) (sod mod 60) (t mod 1000000).

Definition digit (c : ascii) : option Z :=
  let n := N_of_ascii c in
  if ((48 <=? n) && (n <=? 57))%N then Some (Z.of_N n - 48) else None.

Definition number (cs : list ascii) : option Z :=
  foldl (λ acc c, a ← acc; d ← digit c; Some (a * 10 + d)) (Some 0) cs.

(** [strptime] on the zero-padded spelling [YYYY-MM-DD HH:MM] that the
    station prints; Python's accepts a few more spellings of the same
    format, which the examples do not use. *)
Definition strptime_padded (text : string) : option datetime :=
  match list_ascii_of_string text with
  | [y1; y2; y3; y4; s1; m1; m2; s2; d1; d2; s3; h1; h2; s4; n1; n2] =>
    if Ascii.eqb s1 "-" && Ascii.eqb s2 "-" && Ascii.eqb s3 " " && Ascii.eqb s4 ":"
    then
      y ← number [y1; y2; y3; y4];
      m ← number [m1; m2];
      d ← number [d1; d2];
      h ← number [h1; h2];
      n ← number [n1; n2];
      if (1 <=? y) && (1 <=? m) && (m <=? 12) && (1 <=? d)
         && (d <=? days_in_month y m) && (h <=? 23) && (n <=? 59)
      then Some (mkDatetime y m d h n 0 0)
      else None
    else None
  | _ => None
  end.

Definition byte_of_Z (z : Z) : byte := byte_of_ascii (ascii_of_N (Z.to_N z)).

(** A 64-byte block: packet type, four unused bytes, sequence code,
    declared payload length, then the payload padded with zeros. *)
Definition mk_block (code len : Z) (text : string) : rblock :=
  mkBlock 0
    (take 64 ([byte_of_Z 0xfe; x00; x00; x00; x00; byte_of_Z code; byte_of_Z len]
              ++ list_byte_of_string text ++ replicate 64 x00)).

(** The dataset quoted in the source of [genLoopPackets]. *)
Definition sample_dataset : string :=
  "2 2019-06-18 23:33 25.4 58 19.5 69 0.0 0.0 3.6 3.6 253 WSW 1014 953 0 13.6 --.- --.- -- --.- -- --.- -- --.- -- --.- -- --.- -- --.- --".

(** The blocks that carry [text]: a start block, middle blocks of 57
    characters, an end block with the rest. *)
Fixpoint chunks (fuel : nat) (text : string) : list string :=
  match fuel with
  | O => []
  | S n =>
    if (String.length text <=? 57)%nat then [text]
    else substring 0 57 text :: chunks n (substring 57 (String.length text - 57) text)
  end.

Definition blocks_of (text : string) : list rblock :=
  match chunks (String.length text) text with
  | [] => []
  | [c] => [mk_block 0x31 (Z.of_nat (String.length c)) c]
  | c :: cs =>
    mk_block 0x31 (Z.of_nat (String.length c)) c
    :: imap (λ i c, mk_block (if (S i =? length cs)%nat then 0x33 else 0x32)
                             (Z.of_nat (String.length c)) c) cs
  end.

(** A block that is not part of a dataset (sequence code 0x30). *)
Definition idle_block : rblock := mk_block 0x30 0 "".

(** What the device answers while it sends [text] once. *)
Definition sends (text : string) : list usb_answer :=
  (Block <$> blocks_of text) ++ [Block idle_block].

(** The blocks of the sample dataset, and the answers that carry them. *)
Definition sample_start : rblock :=
  Eval vm_compute in default idle_block (head (blocks_of sample_dataset)).
Definition sample_run : list rblock :=
  Eval vm_compute in drop 1 (blocks_of sample_dataset).
Definition sample_answers : list usb_answer :=
  Block sample_start :: (Block <$> sample_run) ++ [Block idle_block].

(** A middle block that declares 200 payload bytes. *)
Definition overlong_block : rblock :=
  mk_block 0x32 200 "0.0 3.6 3.6 253 WSW 1014 953 0 13.6 --.- --.- -- --.- -- ".

(** A started driver: port open, [the_time] equal to the clock. *)
Definition running (now : Z) (usb : list usb_answer) (ctl : list bool)
    (bus : list bus_answer) : Sys :=
  mkSys (Some (mkDevice true true)) now now usb ctl bus [].

(** The station as the examples find it: it sends the sample dataset; the
    host clock is 30 s, 71 s or 100 s ahead of the station's timestamp. *)
Definition station : usb_device := mkDevice true true.

(** 2019-06-18 23:33:00 UTC as a clock reading. *)
Definition t_sample : Z := seconds 1560900780.
Definition station_time : datetime := mkDatetime 2019 6 18 23 33 0 0.

Definition s_in_time : Sys :=
  running (t_sample + seconds 30) sample_answers [true; true] [].
Definition s_late_failing : Sys :=
  running (t_sample + seconds 100) sample_answers [false] [].
(** The station's timestamp is 11 s ahead of the host clock, and the second
    transfer of the time-set fails. *)
Definition s_ahead_failing : Sys :=
  running (t_sample - seconds 11) sample_answers [true; false] [].
Definition s_short : Sys :=
  running t_sample (sends "2 2019-06-18 23:33 25.4") [] [].
Definition s_overlong : Sys :=
  running t_sample [Block (mk_block 0x31 0 ""); Block overlong_block;
                    Block idle_block] [] [].
Definition s_unplugged : Sys :=
  running t_sample [ReadFails 0] []
    [mkScan 0 None; mkScan 0 (Some station)].
Definition s_unclaimable : Sys :=
  running t_sample [ReadFails 0] [] [mkScan 0 (Some (mkDevice true false))].

(** A driver about to start: the port is closed, and the station comes
    onto the bus at the third enumeration. *)
Definition s_absent : Sys :=
  mkSys None 0 t_sample [] [true; true]
    [mkScan (seconds 2) None; mkScan (seconds 14) None;
     mkScan (seconds 1) (Some station)] [].

(** A read that is answered by the start block and then by two bytes. *)
Definition s_truncated : Sys :=
  running t_sample [Block sample_start; Block (mkBlock 0 [x00; x00])] [] [].

(** The words of the sample dataset, each with the blank that follows it. *)
Definition sample_items : list (string * string) :=
  Eval vm_compute in
    ((λ t, (t, " "%string)) <$> take 31 (split sample_dataset))
    ++ ((λ t, (t, EmptyString)) <$> drop 31 (split sample_dataset)).

(** The station sends the sample dataset twice with no idle block between. *)
Definition s_twice : Sys :=
  running t_sample
    (Block sample_start :: (Block <$> sample_run)
     ++ Block sample_start :: (Block <$> sample_run) ++ [Block idle_block])
    [] [].

(** The configurator started with the station on the bus and four
    transfers that succeed. *)
Definition s_configure : Sys :=
  mkSys None 0 t_sample [] [true; true; true; true]
    [mkScan 0 (Some station)] [].

(** ** The packet *)

(** [int(x + 0.5)] for [x] in microseconds: [int] truncates toward zero. *)
Definition int_round (x : Z) : Z := Z.quot (x + 500000) 1000000.

Section Driver.
Set Default Proof Using "Type".

(** The parts of the Python and weewx libraries the driver calls.
    [strptime text] is [datetime.strptime(text, "%Y-%m-%d %H:%M")], [None]
    where it raises [ValueError]; [localtime t] is what [datetime.now()]
    returns when [time.time()] reads [t]; [US] is [weewx.US]. *)
Variable strptime : string → option datetime.
Variable localtime : Z → datetime.
Variable US : Z.

Definition datetime_now : M datetime := t ← time_time; mret (localtime t).

(** *** Port handling *)

Definition _find_device : M (option usb_device) :=
  script ← get bus_in;
  match script with
  | [] => starve
  | a :: rest =>
    modify (set_bus_in rest);;
    emit EScan;;
    elapse (scan_took a);;
    match scan_found a with
    | Some dev => loginf MsgFound;; mret (Some dev)
    | None => mret None
    end
  end.

(** [releaseInterface] on [None] raises [AttributeError]; the bare [except]
    swallows whatever the release raises. *)
Definition closePort : M unit :=
  try_except
    (h ← get devh;
     match h with
     | None => raise AttributeError
     | Some _ => emit ERelease
     end)
    (λ _, mret tt);;
  modify (set_devh None).

Definition not_found (dev : option usb_device) : bool :=
  match dev with None => true | Some _ => false end.

(** The body of the discovery loop, on [current_time] and [dev]. *)
Definition retry (r : Z * option usb_device) : M (Z * option usb_device) :=
  logerr MsgCannotFind;;
  now ← time_time;
  let sleep_time := r.1 + seconds openport_interval - now in
  (if 0 <? sleep_time then time_sleep sleep_time else mret tt);;
  dev ← _find_device;
  mret (r.1 + seconds openport_interval, dev).

(** Every round of the discovery loop enumerates the busses once: the
    number of scripted enumerations bounds the rounds. *)
Definition openPort : M unit :=
  h ← get devh;
  match h with
  | Some _ => mret tt
  | None =>
    fuel ← get (λ s, length (bus_in s));
    current_time ← time_time;
    dev ← _find_device;
    r ← while fuel (λ r, not_found r.2) retry (current_time, dev);
    match r.2 with
    | None => starve                      (* the loop ends with a device *)
    | Some dev =>
      emit EOpen;;
      modify (set_devh (if dev_opens dev then Some dev else None));;
      if negb (dev_opens dev) then raise WeeWxIOError
      else
        try_except (emit EDetach) (λ _, mret tt);;
        try_except
          (emit EClaim;; if dev_claims dev then mret tt else raise USBError)
          (λ e, match e with
                | USBError =>
                  closePort;; logcrt MsgUnableClaim;; raise WeeWxIOError
                | _ => raise e
                end)
    end
  end.

(** *** Time-set *)

(** One of the two control transfers of [setTime]. *)
Definition controlMsg (payload : list Z) : M unit :=
  h ← get devh;
  match h with
  | None => raise AttributeError
  | Some _ =>
    script ← get ctl_in;
    match script with
    | [] => starve
    | ok :: rest =>
      modify (set_ctl_in rest);;
      emit (EControl payload);;
      if (ok : bool) then mret tt else raise USBError
    end
  end.

Definition date_command (now : datetime) : list Z :=
  [0xfc; 0x08; year now - 2000; month now; day now; 0x00; 0x00; 0xfd].
Definition time_command (now : datetime) : list Z :=
  [0xfc; 0x09; hour now; minute now; second now; 0x00; 0x00; 0xfd].

(** The handler is written [except e:] and no name [e] is bound there: when
    the [try] body raises, evaluating [e] raises [NameError], and the
    [logerr] of the handler is never reached. *)
Definition setTime : M unit :=
  now ← datetime_now;
  try_except
    (controlMsg (date_command now);;
     controlMsg (time_command now))
    (λ _, raise NameError);;
  loginf (MsgSetTime now).

Definition init : M unit :=
  now ← time_time;
  modify (set_the_time now);;
  loginf MsgDriverVersion;;
  modify (set_devh None);;
  openPort;;
  setTime.

(** *** The packet loop *)

(** Lines 169-176: the guarded read.  [None] stands for [continue]. *)
Definition recv_dataset : M (option string) :=
  try_except
    (dataset ← read_usb_dataset; mret (Some dataset))
    (λ e, match e with
          | USBError =>
            logerr MsgLostUSB;;
            closePort;;
            openPort;;
            now ← time_time;
            modify (set_the_time now);;
            mret None
          | _ => raise e
          end).

Definition timestamp_text (ds : list string) : string :=
  String.append (ds !!! 1%nat) (String.append " " (ds !!! 2%nat)).

(** Lines 178-192: the field count and the timestamp.  The result holds
    [ds], [computer_now] and [station_now]; [None] stands for [continue]. *)
Definition parse_dataset (dataset : string)
  : M (option (list string * datetime * datetime)) :=
  let ds := split dataset in
  if negb (length ds =? 32)%nat then
    logerr (MsgBadCount (length ds) dataset);; mret None
  else
    computer_now ← datetime_now;
    match strptime (timestamp_text ds) with
    | None => logerr MsgInvalidTime;; mret None
    | Some station_now => mret (Some (ds, computer_now, station_now))
    end.

Definition out_of_tolerance (computer_now station_now : datetime) : bool :=
  let deltat := total_micros computer_now station_now in
  (seconds 70 <? deltat) || (deltat <? seconds (-10)).

(** Lines 193-196: the drift check. *)
Definition check_and_sync (computer_now station_now : datetime) : M unit :=
  if out_of_tolerance computer_now station_now then
    loginf (MsgDeltaTooBig (total_micros computer_now station_now)
                           computer_now station_now);;
    setTime
  else mret tt.

(** Lines 199-231: the dict display.  The indices are in range, the list
    has 32 elements there. *)
Definition make_packet (the_time : Z) (ds : list string) : packet :=
  dict_literal [
    ("dateTime", PInt (int_round the_time));
    ("inTemp", PStr (ds !!! 3%nat));
    ("inHumidity", PStr (ds !!! 4%nat));
    ("outTemp", PStr (ds !!! 5%nat));
    ("outHumidity", PStr (ds !!! 6%nat));
    ("rain", PStr (ds !!! 7%nat));
    ("rainDaily", PStr (ds !!! 8%nat));
    ("windSpeed", PStr (ds !!! 9%nat));
    ("windGust", PStr (ds !!! 10%nat));
    ("windDir", PStr (ds !!! 11%nat));
    ("windCardinal", PStr (ds !!! 12%nat));
    ("pressure", PStr (ds !!! 13%nat));
    ("pressureAbs", PStr (ds !!! 14%nat));
    ("UV", PStr (ds !!! 15%nat));
    ("dewPoint", PStr (ds !!! 16%nat));
    ("heatIndex", PStr (ds !!! 17%nat));
    ("ch1Temp  ", PStr (ds !!! 18%nat));
    ("ch1Humidity", PStr (ds !!! 19%nat));
    ("ch2Temp  ", PStr (ds !!! 20%nat));
    ("ch2Humidity", PStr (ds !!! 21%nat));
    ("ch3Temp  ", PStr (ds !!! 22%nat));
    ("ch3Humidity", PStr (ds !!! 23%nat));
    ("ch4Temp  ", PStr (ds !!! 24%nat));
    ("ch4Humidity", PStr (ds !!! 25%nat));
    ("ch5Temp  ", PStr (ds !!! 26%nat));
    ("ch5Humidity", PStr (ds !!! 27%nat));
    ("ch6Temp  ", PStr (ds !!! 28%nat));
    ("ch6Humidity", PStr (ds !!! 29%nat));
    ("ch7Temp  ", PStr (ds !!! 30%nat));
    ("ch7Humidity", PStr (ds !!! 31%nat));
    ("usUnits", PUnits US)
  ]%string.
#[local] Arguments make_packet : simpl never.

(** Lines 235-240: what runs when the generator is resumed after the
    [yield]. *)
Definition pace : M unit :=
  t ← get the_time;
  now ← time_time;
  let sleep_time := t + seconds loop_interval - now in
  if 0 <? sleep_time then
    time_sleep sleep_time;;
    modify (λ s, set_the_time (the_time s + seconds loop_interval) s)
  else
    now' ← time_time;
    modify (set_the_time now').

(** One round of [while True:]: the packet it yields, or [None] when it
    ends in [continue]. *)
Definition loop_round : M (option packet) :=
  r ← recv_dataset;
  match r with
  | None => mret None
  | Some dataset =>
    p ← parse_dataset dataset;
    match p with
    | None => mret None
    | Some (ds, computer_now, station_now) =>
      check_and_sync computer_now station_now;;
      t ← get the_time;
      let _packet := make_packet t ds in
      emit (EYield _packet);;
      pace;;
      mret (Some _packet)
    end
  end.

(** [genLoopPackets], cut after [n] rounds of its loop: the packets the
    rounds yielded, in order. *)
Fixpoint genLoopPackets (n : nat) : M (list packet) :=
  match n with
  | O => mret []
  | S n' =>
    r ← loop_round;
    rest ← genLoopPackets n';
    mret (match r with Some p => p :: rest | None => rest end)
  end.

(** *** The configurator *)

(** [show_live]: the [for] loop over [genLoopPackets()] does not end by
    itself, only an exception leaves it; the model is cut after [n] rounds.
    What [pp.pprint] writes is not in the trace. *)
Definition show_live (n : nat) : M unit := genLoopPackets n;; starve.

Definition set_time : M unit := setTime.

(** [do_options]: [self.station = BresserUSB(...)] is [init]; [live] and
    [opt_set_time] are [options.live] and [options.set_time]. *)
Definition do_options (n : nat) (live opt_set_time : bool) : M unit :=
  init;;
  (if live then show_live n
   else if opt_set_time then set_time
   else mret tt);;
  closePort.

(** *** The bus scan of [_find_device] *)

(** What [usb.busses()] shows: busses, each with its devices. *)
Record usb_descriptor := mkDescriptor {
  idVendor : Z; idProduct : Z; devnum : Z }.
Record usb_bus := mkBus { location : Z; devices : list usb_descriptor }.

Definition is_station (dev : usb_descriptor) : bool :=
  (idVendor dev =? vendor_id) && (idProduct dev =? product_id).

(** The inner and the outer [for] loop of [_find_device]: the [return dev]
    leaves both at the first device with the two ids of the station. *)
Fixpoint scan_devices (devs : list usb_descriptor) : option usb_descriptor :=
  match devs with
  | [] => None
  | dev :: devs' => if is_station dev then Some dev else scan_devices devs'
  end.

Fixpoint scan_busses (busses : list usb_bus) : option usb_descriptor :=
  match busses with
  | [] => None
  | bus :: busses' =>
    match scan_devices (devices bus) with
    | Some dev => Some dev
    | None => scan_busses busses'
    end
  end.

(** ** Vocabulary of the statements *)

(** The packets yielded so far, oldest first. *)
Definition yielded (s : Sys) : list packet :=
  omap (λ e, match e with EYield p => Some p | _ => None end) (trace s).

(** What the driver did between [s] and a later [s']. *)
Definition new_events (s s' : Sys) : list event :=
  drop (length (trace s)) (trace s').

(** The header bytes of a scripted block, read as [read_usb_dataset] reads
    them, and the characters the block gives to the dataset. *)
Definition byte_at (r : rblock) (i : nat) : Z :=
  match data r !! i with
  | Some b => Z.of_N (Byte.to_N b)
  | None => 0
  end.
Definition block_code (r : rblock) : Z := byte_at r 5.
Definition block_len (r : rblock) : Z := byte_at r 6.
Definition block_frame (r : rblock) : frame :=
  mkFrame (data r) (byte_at r 0) (block_code r) (block_len r).
Definition block_text (r : rblock) : string := payload (block_frame r).

(** The shapes of scripted blocks: 64 bytes long, carrying the start code,
    carrying one of the three codes that keep the second loop going. *)
Definition block64 (r : rblock) : Prop := length (data r) = 64%nat.
Definition starts (r : rblock) : Prop := block_code r = 0x31.
Definition continues (r : rblock) : Prop :=
  block_code r = 0x31 ∨ block_code r = 0x32 ∨ block_code r = 0x33.

(** The sum of the payload lengths that the blocks declare. *)
Definition declared_total (rs : list rblock) : Z :=
  foldr (λ r acc, block_len r + acc) 0 rs.

(** The device sends [start], then [run], then [term], to an open port. *)
Definition transmission (s : Sys) (start : rblock) (run : list rblock)
    (term : rblock) : Prop :=
  is_Some (devh s)
  ∧ (∃ rest, usb_in s = Block start :: (Block <$> run) ++ Block term :: rest)
  ∧ Forall block64 (start :: run ++ [term])
  ∧ starts start
  ∧ Forall (λ r, block_code r = 0x32 ∨ block_code r = 0x33) run
  ∧ ¬ continues term.

(** The field that takes token 3, token 4, ... token 31. *)
Definition sensor_fields : list string := [
  "inTemp"; "inHumidity"; "outTemp"; "outHumidity"; "rain"; "rainDaily";
  "windSpeed"; "windGust"; "windDir"; "windCardinal"; "pressure";
  "pressureAbs"; "UV"; "dewPoint"; "heatIndex";
  "ch1Temp  "; "ch1Humidity"; "ch2Temp  "; "ch2Humidity";
  "ch3Temp  "; "ch3Humidity"; "ch4Temp  "; "ch4Humidity";
  "ch5Temp  "; "ch5Humidity"; "ch6Temp  "; "ch6Humidity";
  "ch7Temp  "; "ch7Humidity" ]%string.



(** [m] keeps [P] and does not raise [USBError]. *)
Definition steady {A} (P : Sys → Prop) (m : M A) : Prop :=
  ∀ s, P s → P (m s).2 ∧ (m s).1 ≠ Raise USBError.

(** The bus script finds nothing, then finds a device. *)
Definition misses (a : bus_answer) : Prop := scan_found a = None.

(** The state after the log and the wait of one round of the discovery
    loop that started with [current_time = cur]. *)
Definition waited (cur : Z) (s : Sys) : Sys :=
  let s1 := add_event (ELog LOG_ERR MsgCannotFind) s in
  let d := cur + seconds openport_interval - clock s in
  if 0 <? d then set_clock (clock s + d) (add_event (ESleep d) s1) else s1.

(** The keys of a loop packet, and the names of the auxiliary temperature
    fields as they would read without the trailing spaces. *)
Definition packet_keys : gset string :=
  list_to_set ("dateTime"%string :: sensor_fields ++ ["usUnits"%string]).

Definition channel_temps : list string :=
  ["ch1Temp"; "ch2Temp"; "ch3Temp"; "ch4Temp"; "ch5Temp"; "ch6Temp"; "ch7Temp"]%string.

(** The packet that a round returned and the packets that a run of rounds
    returned; nothing when it did not return. *)
Definition round_packet (x : res (option packet) * Sys) : packet :=
  match x.1 with Ret (Some p) => p | _ => ∅ end.
Definition returned_packet (x : res (option packet) * Sys) : bool :=
  match x.1 with Ret (Some _) => true | _ => false end.

(** The events that yield a packet. *)
Definition is_yield (e : event) : bool :=
  match e with EYield _ => true | _ => false end.


Definition concat_text (parts : list string) : string :=
  foldr String.append EmptyString parts.

Definition sum_nat (l : list nat) : nat := foldr Nat.add O l.

(** The state after a [read_usb_block "d5"] that was answered [Block r]. *)
Definition after_block (r : rblock) (s : Sys) : Sys :=
  set_clock (clock s + took r)
    (add_event EInterruptRead
       (add_event (EControl [0xfc; 0xd5; 0x01; 0x00; 0x00; 0x97; 0x0b; 0xfd])
          (set_usb_in (tail (usb_in s)) s))).

Definition after_blocks (rs : list rblock) (s : Sys) : Sys :=
  foldl (λ s r, after_block r s) s rs.

(** [m] keeps the property [P] of the state, however it ends. *)
Definition preserves {A} (P : Sys → Prop) (m : M A) : Prop :=
  ∀ s, P s → P (m s).2.

(** A bus enumeration that takes less than the retry interval. *)
Definition quick (a : bus_answer) : Prop :=
  0 ≤ scan_took a < seconds openport_interval.

(** What the discovery loop does to the outside: scans, logs, sleeps. *)
Definition scan_event (e : event) : Prop :=
  match e with EScan | ELog _ _ | ESleep _ => True | _ => False end.

(** The state in which [openPort] ends when the discovery ended in [s1]
    with the device [dev]. *)
Definition opened (dev : usb_device) (s1 : Sys) : Sys :=
  let s2 := set_devh (if dev_opens dev then Some dev else None)
              (add_event EOpen s1) in
  if dev_opens dev then
    let s3 := add_event EClaim (add_event EDetach s2) in
    if dev_claims dev then s3
    else add_event (ELog LOG_CRIT MsgUnableClaim)
           (set_devh None (add_event ERelease s3))
  else s2.

(** The blocks read so far in a [read_usb_dataset]: none of them a start
    block (the first loop is still running), or some blocks without the
    start code, a start block, and blocks that continue it (the second loop
    is running). *)
Definition in_progress (good : list rblock) : Prop :=
  Forall (λ r, ¬ starts r) good
  ∨ ∃ pre start run,
      good = pre ++ start :: run
      ∧ Forall (λ r, ¬ starts r) pre ∧ starts start ∧ Forall continues run.

(** The 64-byte block that carries [text] under the sequence code [code],
    with the length of [text] as its declared payload length. *)
Definition carrier (code : Z) (text : string) : rblock :=
  mk_block code (Z.of_nat (String.length text)) text.

(** Texts made of whitespace only, and words: texts that are not empty and
    hold no whitespace. *)
Definition whitespace (w : string) : Prop :=
  Forall (λ c, isspace c = true) (list_ascii_of_string w).
Definition word (t : string) : Prop :=
  t ≠ EmptyString ∧ Forall (λ c, isspace c = false) (list_ascii_of_string t).

(** Words, each followed by the whitespace that separates it from the
    next one; only the last may be followed by none. *)
Fixpoint spaced (items : list (string * string)) : string :=
  match items with
  | [] => EmptyString
  | (t, w) :: items' => String.append t (String.append w (spaced items'))
  end.

Fixpoint well_spaced (items : list (string * string)) : Prop :=
  match items with
  | [] => True
  | (t, w) :: items' =>
    word t ∧ whitespace w ∧ (w = EmptyString → items' = [])
    ∧ well_spaced items'
  end.

(** The token that [split_from] has in hand, if any. *)
Definition flush (cur : list ascii) : list string :=
  match cur with
  | [] => []
  | _ => [string_of_list_ascii (rev cur)]
  end.

(** A time of day with its fields in range, and the timestamp of a
    station that shows the date, hour and minute of [now] shifted by [k]
    minutes within the hour: the station's text has no seconds. *)
Definition time_of_day (now : datetime) : Prop :=
  0 ≤ second now ≤ 59 ∧ 0 ≤ microsecond now < 1000000.
Definition station_minute (now : datetime) (k : Z) : datetime :=
  mkDatetime (year now) (month now) (day now) (hour now) (minute now + k) 0 0.

(** The station sends three texts after an idle block. *)
Definition s_framed : Sys :=
  running t_sample
    [Block idle_block; Block (carrier 0x31 "2 2019-06-18 23:33 25.4 58 ");
     Block (carrier 0x32 "19.5 69 "); Block (carrier 0x33 "0.0");
     Block idle_block] [] [].

(** ** The monad, step by step *)

(** Projections of updated states. *)
Ltac sys_simpl :=
  cbn [fst snd devh the_time clock usb_in ctl_in bus_in trace set_devh
       set_the_time set_clock set_usb_in set_ctl_in set_bus_in add_event].


Lemma bind_Ret {A B} (m : M A) (k : A → M B) s a s' :
  m s = (Ret a, s') → (m ≫= k) s = k a s'.
Proof. intros H. unfold mbind, M_bind. by rewrite H. Qed.

Lemma bind_Raise {A B} (m : M A) (k : A → M B) s e s' :
  m s = (Raise e, s') → (m ≫= k) s = (Raise e, s').
Proof. intros H. unfold mbind, M_bind. by rewrite H. Qed.

Lemma bind_Starved {A B} (m : M A) (k : A → M B) s s' :
  m s = (Starved, s') → (m ≫= k) s = (Starved, s').
Proof. intros H. unfold mbind, M_bind. by rewrite H. Qed.

Lemma bind_assoc {A B C} (m : M A) (k : A → M B) (k' : B → M C) s :
  (m ≫= (λ a, k a ≫= k')) s = ((m ≫= k) ≫= k') s.
Proof. unfold mbind, M_bind. by destruct (m s) as [[ | | ] ?]. Qed.

Lemma bind_mret_id {A} (m : M A) s : (a ← m; mret a) s = m s.
Proof. unfold mbind, M_bind. by destruct (m s) as [[ | | ] ?]. Qed.

Lemma while_true {A} fuel (cond : A → bool) body a :
  cond a = true →
  while (S fuel) cond body a = (a' ← body a; while fuel cond body a').
Proof. intros H. simpl. by rewrite H. Qed.

Lemma while_false {A} fuel (cond : A → bool) body (a : A) :
  cond a = false → while fuel cond body a = mret a.
Proof. intros H. destruct fuel; simpl; by rewrite H. Qed.

Section Preserves.
Context (P : Sys → Prop).

Lemma preserves_ret {A} (a : A) : preserves P (mret a).
Proof. by intros s. Qed.

Lemma preserves_raise {A} e : preserves P (@raise A e).
Proof. by intros s. Qed.

Lemma preserves_starve {A} : preserves P (@starve A).
Proof. by intros s. Qed.

Lemma preserves_get {A} (f : Sys → A) : preserves P (get f).
Proof. by intros s. Qed.

Lemma preserves_modify f : (∀ s, P s → P (f s)) → preserves P (modify f).
Proof. intros H s Hs. by apply H. Qed.

Lemma preserves_bind {A B} (m : M A) (k : A → M B) :
  preserves P m → (∀ a, preserves P (k a)) → preserves P (m ≫= k).
Proof.
  intros Hm Hk s Hs. specialize (Hm s Hs).
  unfold mbind, M_bind. destruct (m s) as [[a|e|] s']; simpl in *; auto.
  by apply Hk.
Qed.

Lemma preserves_try {A} (m : M A) h :
  preserves P m → (∀ e, preserves P (h e)) → preserves P (try_except m h).
Proof.
  intros Hm Hh s Hs. specialize (Hm s Hs).
  unfold try_except. destruct (m s) as [[a|e|] s']; simpl in *; auto.
  by apply Hh.
Qed.

Lemma preserves_while {A} fuel (cond : A → bool) body a :
  (∀ a, preserves P (body a)) → preserves P (while fuel cond body a).
Proof.
  intros Hb. revert a. induction fuel as [|n IH]; intros a; simpl.
  - destruct (cond a); [apply preserves_starve | apply preserves_ret].
  - destruct (cond a); [|apply preserves_ret].
    apply preserves_bind; auto.
Qed.
End Preserves.

(** The structural steps of a preservation proof. *)
Ltac pres_step :=
  lazymatch goal with
  | |- preserves _ (mret _) => apply preserves_ret
  | |- preserves _ (raise _) => apply preserves_raise
  | |- preserves _ starve => apply preserves_starve
  | |- preserves _ (get _) => apply preserves_get
  | |- preserves _ (_ ≫= _) => apply preserves_bind; [|intros ?]
  | |- preserves _ (try_except _ _) => apply preserves_try; [|intros ?]
  | |- preserves _ (while _ _ _ _) => apply preserves_while; intros ?
  | |- preserves _ (match ?x with _ => _ end) => destruct x
  end.


(** ** Strings *)

Lemma append_cons (x : ascii) (a b : string) :
  String.append (String x a) b = String x (String.append a b).
Proof. reflexivity. Qed.

Lemma append_nil_l (b : string) : String.append EmptyString b = b.
Proof. reflexivity. Qed.

Lemma append_nil_r (a : string) : String.append a EmptyString = a.
Proof. induction a as [|x a IH]; [done | by rewrite append_cons, IH]. Qed.

Lemma append_assoc (a b c : string) :
  String.append (String.append a b) c = String.append a (String.append b c).
Proof. induction a as [|x a IH]; [done | by rewrite !append_cons, IH]. Qed.

Lemma length_append (a b : string) :
  String.length (String.append a b) = (String.length a + String.length b)%nat.
Proof. induction a as [|x a IH]; [done | by rewrite append_cons; simpl; rewrite IH]. Qed.

Lemma length_join_chr (l : list byte) : String.length (join_chr l) = length l.
Proof. unfold join_chr. induction l as [|x l IH]; simpl; [done | f_equal; exact IH]. Qed.

Lemma sum_nat_cons x l : sum_nat (x :: l) = (x + sum_nat l)%nat.
Proof. reflexivity. Qed.

Lemma length_concat_text (parts : list string) :
  String.length (concat_text parts) = sum_nat (String.length <$> parts).
Proof.
  induction parts as [|p parts IH]; [done|].
  simpl. by rewrite length_append, IH.
Qed.

(** ** Reading blocks *)

Lemma read_usb_block_Block s h r rest :
  devh s = Some h → usb_in s = Block r :: rest →
  read_usb_block "d5" s = (Ret (take usb_read_size (data r)), after_block r s).
Proof.
  intros Hd Hu. unfold read_usb_block, after_block.
  cbv [mbind M_bind mret M_ret get modify emit elapse].
  rewrite Hd. simpl. rewrite Hu. reflexivity.
Qed.

Lemma next_frame_Block s h r rest :
  devh s = Some h → usb_in s = Block r :: rest → length (data r) = 64%nat →
  next_frame s = (Ret (block_frame r), after_block r s).
Proof.
  intros Hd Hu Hl. unfold next_frame.
  rewrite (bind_Ret _ _ _ _ _ (read_usb_block_Block s h r rest Hd Hu)).
  rewrite take_ge by (unfold usb_read_size; lia).
  unfold block_frame, block_code, block_len, byte_at, getitem.
  destruct (data r) as [|b0 [|b1 [|b2 [|b3 [|b4 [|b5 [|b6 l]]]]]]];
    simpl in Hl; try lia.
  reflexivity.
Qed.

Lemma after_blocks_app rs rs' s :
  after_blocks (rs ++ rs') s = after_blocks rs' (after_blocks rs s).
Proof. unfold after_blocks. apply foldl_app. Qed.

Lemma after_blocks_devh rs s : devh (after_blocks rs s) = devh s.
Proof.
  revert s. induction rs as [|r rs IH]; intros s; [done|].
  simpl. by rewrite IH.
Qed.

Lemma after_blocks_usb_in rs rest s :
  usb_in s = (Block <$> rs) ++ rest → usb_in (after_blocks rs s) = rest.
Proof.
  revert s. induction rs as [|r rs IH]; intros s Hu; [done|].
  simpl. apply IH. simpl. by rewrite Hu.
Qed.

Lemma is_start_block r : is_start (block_frame r) = bool_decide (starts r).
Proof.
  unfold is_start, starts. simpl.
  destruct (Z.eqb_spec (block_code r) 49); [by rewrite bool_decide_eq_true_2|
  by rewrite bool_decide_eq_false_2].
Qed.

Lemma in_dataset_block r : in_dataset (block_frame r) = bool_decide (continues r).
Proof.
  clear localtime US.
  unfold in_dataset, continues. simpl.
  destruct (Z.eqb_spec (block_code r) 49), (Z.eqb_spec (block_code r) 50),
    (Z.eqb_spec (block_code r) 51); simpl;
    (rewrite bool_decide_eq_true_2 by tauto) || (rewrite bool_decide_eq_false_2 by tauto);
    done.
Qed.

Lemma seek_start fuel pre start rest s h :
  devh s = Some h →
  usb_in s = (Block <$> pre) ++ Block start :: rest →
  Forall block64 pre → block64 start →
  Forall (λ r, ¬ starts r) pre → starts start →
  (length pre ≤ fuel)%nat →
  (f ← next_frame; while fuel (λ f, negb (is_start f)) (λ _, next_frame) f) s
  = (Ret (block_frame start), after_blocks (pre ++ [start]) s).
Proof.
  revert s fuel.
  induction pre as [|p pre IH]; intros s fuel Hd Hu H64 Hs64 Hpre Hst Hf.
  - rewrite (bind_Ret _ _ _ _ _ (next_frame_Block s h start rest Hd Hu Hs64)).
    rewrite while_false; [reflexivity|].
    rewrite is_start_block. by rewrite bool_decide_eq_true_2.
  - apply Forall_cons in H64 as [Hp64 H64]. apply Forall_cons in Hpre as [Hp Hpre].
    rewrite (bind_Ret _ _ _ _ _ (next_frame_Block s h p _ Hd Hu Hp64)).
    destruct fuel as [|n]; [simpl in Hf; lia|].
    rewrite while_true
      by (rewrite is_start_block; by rewrite bool_decide_eq_false_2).
    simpl in Hu. rewrite (IH (after_block p s) n); try done.
    + simpl. by rewrite Hu.
    + simpl in Hf. lia.
Qed.

Lemma append_next_Block d f s h r rest :
  devh s = Some h → usb_in s = Block r :: rest → block64 r →
  append_next (d, f) s
  = (Ret (String.append d (payload f), block_frame r), after_block r s).
Proof.
  intros Hd Hu H64. unfold append_next.
  by rewrite (bind_Ret _ _ _ _ _ (next_frame_Block s h r rest Hd Hu H64)).
Qed.

Lemma collect fuel run term rest d b s h :
  devh s = Some h →
  usb_in s = (Block <$> run) ++ Block term :: rest →
  Forall block64 run → block64 term →
  continues b → Forall continues run → ¬ continues term →
  (length run < fuel)%nat →
  while fuel (λ r, in_dataset r.2) append_next (d, block_frame b) s
  = (Ret (String.append d (concat_text (block_text <$> b :: run)), block_frame term),
     after_blocks (run ++ [term]) s).
Proof.
  revert s fuel d b.
  induction run as [|r run IH]; intros s fuel d b Hd Hu H64 Ht64 Hb Hrun Hterm Hf;
    (destruct fuel as [|n]; [simpl in Hf; lia|]);
    (rewrite while_true by (simpl; rewrite in_dataset_block; by rewrite bool_decide_eq_true_2)).
  - rewrite (bind_Ret _ _ _ _ _ (append_next_Block d _ s h term rest Hd Hu Ht64)).
    rewrite while_false
      by (simpl; rewrite in_dataset_block; by rewrite bool_decide_eq_false_2).
    simpl. unfold block_text. by rewrite append_nil_r.
  - apply Forall_cons in H64 as [Hr64 H64]. apply Forall_cons in Hrun as [Hr Hrun].
    rewrite (bind_Ret _ _ _ _ _ (append_next_Block d _ s h r _ Hd Hu Hr64)).
    simpl in Hu. rewrite (IH (after_block r s) n); try done.
    + simpl. by rewrite append_assoc.
    + simpl. by rewrite Hu.
    + simpl in Hf. lia.
Qed.

Lemma read_usb_dataset_run s h pre start run term rest :
  devh s = Some h →
  usb_in s = (Block <$> pre) ++ Block start :: (Block <$> run) ++ Block term :: rest →
  Forall block64 (pre ++ start :: run ++ [term]) →
  Forall (λ r, ¬ starts r) pre → starts start →
  Forall continues run → ¬ continues term →
  read_usb_dataset s
  = (Ret (concat_text (block_text <$> start :: run)),
     after_blocks (pre ++ start :: run ++ [term]) s).
Proof.
  intros Hd Hu H64 Hpre Hst Hrun Hterm.
  apply Forall_app in H64 as [Hp64 H64]. apply Forall_cons in H64 as [Hs64 H64].
  apply Forall_app in H64 as [Hr64 Ht64]. apply Forall_cons in Ht64 as [Ht64 _].
  assert (Hlen : length (usb_in s)
    = (length pre + S (length run + S (length rest)))%nat).
  { rewrite Hu. rewrite length_app, length_fmap. simpl.
    by rewrite length_app, length_fmap. }
  unfold read_usb_dataset.
  erewrite bind_Ret by reflexivity.
  rewrite bind_assoc.
  erewrite bind_Ret by (eapply seek_start; eauto; lia).
  erewrite bind_Ret.
  2:{ eapply (collect _ run term rest EmptyString start); eauto.
      - rewrite after_blocks_devh. exact Hd.
      - apply after_blocks_usb_in. by rewrite fmap_app, <- app_assoc.
      - by left.
      - lia. }
  rewrite <- after_blocks_app, <- app_assoc. reflexivity.
Qed.

Lemma length_block_text r :
  block64 r →
  String.length (block_text r) = Nat.min (Z.to_nat (block_len r)) 57.
Proof.
  intros H64. unfold block_text, payload, py_slice. simpl.
  rewrite length_join_chr, length_take, length_drop. rewrite H64. lia.
Qed.

(** C9: in a reassembly, a 64-byte block whose sequence code keeps the
    second loop going gives the dataset the slice from offset 7 to offset
    7 + declared length of the block, which holds min(declared length, 57)
    characters: the read returns, and a declared length above 57 takes the
    57 bytes that are there. *)
Theorem C9_block_contribution s h pre start run term rest :
  devh s = Some h →
  usb_in s = (Block <$> pre) ++ Block start :: (Block <$> run) ++ Block term :: rest →
  Forall block64 (pre ++ start :: run ++ [term]) →
  Forall (λ r, ¬ starts r) pre → starts start →
  Forall continues run → ¬ continues term →
  ∃ s',
    read_usb_dataset s = (Ret (concat_text (block_text <$> start :: run)), s')
    ∧ Forall (λ r, block_text r
                   = join_chr (take (Z.to_nat (block_len r)) (drop 7 (data r)))
                ∧ String.length (block_text r)
                   = Nat.min (Z.to_nat (block_len r)) 57)
             (start :: run).
Proof.
  intros Hd Hu H64 Hpre Hst Hrun Hterm. eexists. split.
  - eapply read_usb_dataset_run; eauto.
  - apply Forall_app in H64 as [_ H64].
    rewrite app_comm_cons in H64. apply Forall_app in H64 as [H64 _].
    eapply Forall_impl; [exact H64|]. intros r Hr. split.
    + unfold block_text, payload, py_slice. simpl. do 2 f_equal. lia.
    + by apply length_block_text.
Qed.

(** C2, as amended: after any blocks without the start code, a start block
    followed by blocks with a start, middle or end code and then a block
    with another code reassemble into a dataset whose length is the sum,
    over the start block and its followers, of min(declared length, 57);
    it is the sum L of the declared lengths when none exceeds 57. *)
Theorem C2_reassembly_length s h pre start run term rest :
  devh s = Some h →
  usb_in s = (Block <$> pre) ++ Block start :: (Block <$> run) ++ Block term :: rest →
  Forall block64 (pre ++ start :: run ++ [term]) →
  Forall (λ r, ¬ starts r) pre → starts start →
  Forall continues run → ¬ continues term →
  ∃ dataset s',
    read_usb_dataset s = (Ret dataset, s')
    ∧ String.length dataset
      = sum_nat ((λ r, Nat.min (Z.to_nat (block_len r)) 57) <$> start :: run)
    ∧ (Forall (λ r, block_len r ≤ 57) (start :: run) →
       Z.of_nat (String.length dataset) = declared_total (start :: run)).
Proof.
  intros Hd Hu H64 Hpre Hst Hrun Hterm.
  exists (concat_text (block_text <$> start :: run)). eexists.
  split; [eapply read_usb_dataset_run; eauto|].
  apply Forall_app in H64 as [_ H64].
  rewrite app_comm_cons in H64. apply Forall_app in H64 as [H64 _].
  rewrite length_concat_text.
  assert (Hparts : Forall (λ r, String.length (block_text r)
                   = Nat.min (Z.to_nat (block_len r)) 57) (start :: run)).
  { eapply Forall_impl; [exact H64|]. intros r. apply length_block_text. }
  clear H64 Hu Hst Hrun. revert Hparts. generalize (start :: run) as rs.
  induction rs as [|r rs IH]; intros Hparts; [done|].
  apply Forall_cons in Hparts as [Hr Hparts]. destruct (IH Hparts) as [IH1 IH2].
  rewrite !fmap_cons, !sum_nat_cons, Hr, IH1. split; [done|].
  intros Hle. apply Forall_cons in Hle as [Hle1 Hle].
  specialize (IH2 Hle). rewrite IH1 in IH2.
  unfold declared_total in *. rewrite foldr_cons, <- IH2.
  assert (0 ≤ block_len r).
  { unfold block_len, byte_at. destruct (data r !! 6%nat); lia. }
  lia.
Qed.

(** ** What the calls leave untouched *)

Section Frame.
Context (P : Sys → Prop).
Hypothesis Hclock : ∀ t s, P s → P (set_clock t s).
Hypothesis Husb : ∀ l s, P s → P (set_usb_in l s).
Hypothesis Hctl : ∀ l s, P s → P (set_ctl_in l s).
Hypothesis Hbus : ∀ l s, P s → P (set_bus_in l s).
Hypothesis Hdevh : ∀ h s, P s → P (set_devh h s).
Hypothesis Hthe_time : ∀ t s, P s → P (set_the_time t s).
Hypothesis Hevent : ∀ e s, is_yield e = false → P s → P (add_event e s).

Ltac frame :=
  repeat first
    [ pres_step
    | progress unfold emit, elapse, time_sleep, time_time, logerr, loginf,
        logcrt, logdbg, logmsg_, datetime_now, getitem
    | apply preserves_modify; intros ? ?;
      first [ apply Hevent; [reflexivity | assumption]
            | apply Hclock; assumption
            | apply Husb; assumption
            | apply Hctl; assumption
            | apply Hbus; assumption
            | apply Hdevh; assumption
            | apply Hthe_time; assumption ] ].

Lemma read_usb_block_frame requesttype : preserves P (read_usb_block requesttype).
Proof using Husb Hevent Hclock.
  unfold read_usb_block. frame. Qed.

Lemma next_frame_frame : preserves P next_frame.
Proof using Husb Hevent Hclock.
  unfold next_frame. pres_step; [apply read_usb_block_frame|]. frame. Qed.

Lemma read_usb_dataset_frame : preserves P read_usb_dataset.
Proof using Husb Hevent Hclock.
  unfold read_usb_dataset, append_next.
  repeat first [ apply next_frame_frame | pres_step ].
Qed.

Lemma _find_device_frame : preserves P _find_device.
Proof using Hevent Hclock Hbus.
  unfold _find_device. frame. Qed.

Lemma closePort_frame : preserves P closePort.
Proof using Hevent Hdevh.
  unfold closePort. frame. Qed.

Lemma openPort_frame : preserves P openPort.
Proof using Hevent Hdevh Hclock Hbus.
  unfold openPort, retry.
  repeat first [ apply _find_device_frame | apply closePort_frame | pres_step
               | progress frame ].
Qed.

Lemma controlMsg_frame payload : preserves P (controlMsg payload).
Proof using Hevent Hctl.
  unfold controlMsg. frame. Qed.

Lemma setTime_frame : preserves P setTime.
Proof using Hevent Hctl.
  unfold setTime.
  repeat first [ apply controlMsg_frame | pres_step | progress frame ].
Qed.

Lemma recv_dataset_frame : preserves P recv_dataset.
Proof using Husb Hthe_time Hevent Hdevh Hclock Hbus.
  unfold recv_dataset.
  repeat first [ apply read_usb_dataset_frame | apply closePort_frame
               | apply openPort_frame | pres_step | progress frame ].
Qed.

Lemma check_and_sync_frame c st : preserves P (check_and_sync c st).
Proof using Hevent Hctl.
  unfold check_and_sync.
  repeat first [ apply setTime_frame | pres_step | progress frame ].
Qed.

Lemma parse_dataset_frame dataset : preserves P (parse_dataset dataset).
Proof using Hevent. unfold parse_dataset. frame. Qed.
End Frame.

Lemma yielded_add_event e s :
  yielded (add_event e s)
  = yielded s ++ match e with EYield p => [p] | _ => [] end.
Proof. unfold yielded. simpl. rewrite omap_app. by destruct e. Qed.

Lemma yielded_add_other e s :
  is_yield e = false → yielded (add_event e s) = yielded s.
Proof.
  intros He. rewrite yielded_add_event. destruct e; try discriminate;
    by rewrite app_nil_r.
Qed.

(** A read changes neither the packets yielded nor the attributes nor the
    other scripts, and only adds to the trace. *)
Lemma read_usb_dataset_keeps s :
  let s' := (read_usb_dataset s).2 in
  yielded s' = yielded s ∧ the_time s' = the_time s ∧ devh s' = devh s
  ∧ ctl_in s' = ctl_in s ∧ bus_in s' = bus_in s.
Proof.
  repeat split.
  - apply (read_usb_dataset_frame (λ x, yielded x = yielded s)); try done.
    intros e x He Hx. by rewrite yielded_add_other.
  - by apply (read_usb_dataset_frame (λ x, the_time x = the_time s)).
  - by apply (read_usb_dataset_frame (λ x, devh x = devh s)).
  - by apply (read_usb_dataset_frame (λ x, ctl_in x = ctl_in s)).
  - by apply (read_usb_dataset_frame (λ x, bus_in x = bus_in s)).
Qed.

Lemma check_and_sync_keeps c st s :
  let s' := (check_and_sync c st s).2 in
  yielded s' = yielded s ∧ the_time s' = the_time s ∧ devh s' = devh s
  ∧ clock s' = clock s ∧ usb_in s' = usb_in s ∧ bus_in s' = bus_in s.
Proof.
  repeat split.
  - apply (check_and_sync_frame (λ x, yielded x = yielded s)); try done.
    intros e x He Hx. by rewrite yielded_add_other.
  - by apply (check_and_sync_frame (λ x, the_time x = the_time s)).
  - by apply (check_and_sync_frame (λ x, devh x = devh s)).
  - by apply (check_and_sync_frame (λ x, clock x = clock s)).
  - by apply (check_and_sync_frame (λ x, usb_in x = usb_in s)).
  - by apply (check_and_sync_frame (λ x, bus_in x = bus_in s)).
Qed.

Lemma recv_dataset_yielded s : yielded (recv_dataset s).2 = yielded s.
Proof.
  apply (recv_dataset_frame (λ x, yielded x = yielded s)); try done.
  intros e x He Hx. by rewrite yielded_add_other.
Qed.

(** ** The steps of a round *)

Lemma recv_dataset_Ret s dataset s1 :
  read_usb_dataset s = (Ret dataset, s1) →
  recv_dataset s = (Ret (Some dataset), s1).
Proof.
  intros H. unfold recv_dataset, try_except.
  by rewrite (bind_Ret _ _ _ _ _ H).
Qed.

Lemma parse_dataset_accept dataset station_now s :
  length (split dataset) = 32%nat →
  strptime (timestamp_text (split dataset)) = Some station_now →
  parse_dataset dataset s
  = (Ret (Some (split dataset, localtime (clock s), station_now)), s).
Proof.
  intros Hlen Htime. unfold parse_dataset. rewrite Hlen. simpl.
  unfold datetime_now, time_time. cbv [mbind M_bind mret M_ret get].
  by rewrite Htime.
Qed.

Lemma parse_dataset_count dataset s :
  length (split dataset) ≠ 32%nat →
  parse_dataset dataset s
  = (Ret None,
     add_event (ELog LOG_ERR (MsgBadCount (length (split dataset)) dataset)) s).
Proof.
  intros Hlen. unfold parse_dataset.
  destruct (Nat.eqb_spec (length (split dataset)) 32); [done|]. reflexivity.
Qed.

Lemma parse_dataset_time dataset s :
  length (split dataset) = 32%nat →
  strptime (timestamp_text (split dataset)) = None →
  parse_dataset dataset s = (Ret None, add_event (ELog LOG_ERR MsgInvalidTime) s).
Proof.
  intros Hlen Htime. unfold parse_dataset. rewrite Hlen. simpl.
  unfold datetime_now, time_time. cbv [mbind M_bind mret M_ret get].
  by rewrite Htime.
Qed.

Lemma pace_Ret s : pace s = (Ret tt, (pace s).2).
Proof.
  unfold pace. cbv [mbind M_bind mret M_ret get time_time time_sleep emit modify].
  by destruct (0 <? the_time s + seconds loop_interval - clock s).
Qed.

Lemma pace_yielded s : yielded (pace s).2 = yielded s.
Proof.
  unfold pace. cbv [mbind M_bind mret M_ret get time_time time_sleep emit modify].
  destruct (0 <? the_time s + seconds loop_interval - clock s); [|done].
  simpl. unfold yielded. simpl. rewrite omap_app. simpl. by rewrite app_nil_r.
Qed.

(** The round from the drift check on, once the dataset is accepted. *)
Lemma loop_round_accepted s s1 dataset station_now :
  read_usb_dataset s = (Ret dataset, s1) →
  length (split dataset) = 32%nat →
  strptime (timestamp_text (split dataset)) = Some station_now →
  loop_round s
  = match check_and_sync (localtime (clock s1)) station_now s1 with
    | (Ret _, s2) =>
      let _packet := make_packet (the_time s) (split dataset) in
      (Ret (Some _packet), (pace (add_event (EYield _packet) s2)).2)
    | (Raise e, s2) => (Raise e, s2)
    | (Starved, s2) => (Starved, s2)
    end.
Proof.
  intros Hread Hlen Htime. unfold loop_round.
  rewrite (bind_Ret _ _ _ _ _ (recv_dataset_Ret _ _ _ Hread)).
  rewrite (bind_Ret _ _ _ _ _ (parse_dataset_accept _ _ s1 Hlen Htime)).
  pose proof (check_and_sync_keeps (localtime (clock s1)) station_now s1) as (_ & Ht & _).
  pose proof (read_usb_dataset_keeps s) as (_ & Ht1 & _).
  rewrite Hread in Ht1. simpl in Ht, Ht1.
  unfold mbind at 1, M_bind at 1.
  destruct (check_and_sync (localtime (clock s1)) station_now s1) as [[[]|e|] s2];
    try reflexivity.
  simpl in Ht. cbv [mbind M_bind mret M_ret get emit modify].
  rewrite pace_Ret. simpl. by rewrite Ht, Ht1.
Qed.

Lemma make_packet_fields t (ds : list string) i key :
  sensor_fields !! i = Some key →
  make_packet t ds !! key = Some (PStr (ds !!! (3 + i)%nat)).
Proof.
  intros Hkey.
  do 29 (destruct i as [|i]; [injection Hkey as <-; reflexivity|]).
  discriminate.
Qed.

Lemma loop_round_rejected s s1 dataset :
  read_usb_dataset s = (Ret dataset, s1) →
  length (split dataset) ≠ 32%nat
  ∨ strptime (timestamp_text (split dataset)) = None →
  ∃ msg, loop_round s = (Ret None, add_event (ELog LOG_ERR msg) s1).
Proof.
  intros Hread Hbad.
  assert (∃ msg, parse_dataset dataset s1
                 = (Ret None, add_event (ELog LOG_ERR msg) s1)) as [msg Hparse].
  { destruct (decide (length (split dataset) = 32%nat)) as [Hlen|Hlen].
    - destruct Hbad as [?|Htime]; [done|]. eexists. by apply parse_dataset_time.
    - eexists. by apply parse_dataset_count. }
  exists msg. unfold loop_round.
  rewrite (bind_Ret _ _ _ _ _ (recv_dataset_Ret _ _ _ Hread)).
  by rewrite (bind_Ret _ _ _ _ _ Hparse).
Qed.

(** C3: when the reassembled dataset does not have exactly 32 tokens, or
    its tokens 1 and 2 do not parse as a timestamp, the round logs one
    error, yields nothing, raises nothing, and the loop goes on with its
    next round. *)
Theorem C3_malformed_dataset_skipped s s1 dataset :
  read_usb_dataset s = (Ret dataset, s1) →
  length (split dataset) ≠ 32%nat
  ∨ strptime (timestamp_text (split dataset)) = None →
  ∃ msg,
    let s2 := add_event (ELog LOG_ERR msg) s1 in
    loop_round s = (Ret None, s2)
    ∧ yielded s2 = yielded s
    ∧ ∀ n, genLoopPackets (S n) s = genLoopPackets n s2.
Proof.
  intros Hread Hbad.
  pose proof (read_usb_dataset_keeps s) as (Hy & _).
  rewrite Hread in Hy. simpl in Hy.
  destruct (loop_round_rejected s s1 dataset Hread Hbad) as [msg Hround].
  exists msg. simpl. split; [done|]. split.
  - by rewrite yielded_add_other.
  - intros n. simpl. rewrite (bind_Ret _ _ _ _ _ Hround). apply bind_mret_id.
Qed.

(** ** The time-set *)

Lemma setTime_first_fails s h rest :
  devh s = Some h → ctl_in s = false :: rest →
  setTime s
  = (Raise NameError,
     add_event (EControl (date_command (localtime (clock s)))) (set_ctl_in rest s)).
Proof. intros Hd Hc. destruct s. simpl in *. subst. reflexivity. Qed.

Lemma setTime_second_fails s h rest :
  devh s = Some h → ctl_in s = true :: false :: rest →
  setTime s
  = (Raise NameError,
     add_event (EControl (time_command (localtime (clock s))))
       (set_ctl_in rest
          (add_event (EControl (date_command (localtime (clock s)))) s))).
Proof. intros Hd Hc. destruct s. simpl in *. subst. reflexivity. Qed.

Lemma setTime_succeeds s h rest :
  devh s = Some h → ctl_in s = true :: true :: rest →
  setTime s
  = (Ret tt,
     add_event (ELog LOG_INFO (MsgSetTime (localtime (clock s))))
       (add_event (EControl (time_command (localtime (clock s))))
          (set_ctl_in rest
             (add_event (EControl (date_command (localtime (clock s)))) s)))).
Proof. intros Hd Hc. destruct s. simpl in *. subst. reflexivity. Qed.

(** C7, on the code: when the first or the second control transfer of the
    time-set fails, [setTime] raises [NameError] to its caller, and nothing
    is logged. *)
Theorem C7_setTime_raises s h rest :
  devh s = Some h →
  ctl_in s = false :: rest ∨ ctl_in s = true :: false :: rest →
  (setTime s).1 = Raise NameError
  ∧ ∀ l m, ELog l m ∉ new_events s (setTime s).2.
Proof.
  intros Hd [Hc|Hc].
  - rewrite (setTime_first_fails s h rest Hd Hc). split; [done|].
    intros l m. unfold new_events. simpl. rewrite drop_app_length.
    by intros [=]%list_elem_of_singleton.
  - rewrite (setTime_second_fails s h rest Hd Hc). split; [done|].
    intros l m. unfold new_events. simpl.
    rewrite <- app_assoc, drop_app_length. simpl.
    intros Hin. apply elem_of_cons in Hin as [[=]|Hin].
    by apply list_elem_of_singleton in Hin.
Qed.

Lemma read_usb_dataset_port s dataset s1 :
  read_usb_dataset s = (Ret dataset, s1) → is_Some (devh s).
Proof.
  intros Hread. destruct (devh s) as [h|] eqn:Hd; [by eexists|].
  unfold read_usb_dataset, next_frame, read_usb_block in Hread.
  cbv [mbind M_bind mret M_ret get] in Hread. rewrite Hd in Hread. discriminate.
Qed.

Lemma check_and_sync_in c st s :
  out_of_tolerance c st = false → check_and_sync c st s = (Ret tt, s).
Proof. intros H. unfold check_and_sync. by rewrite H. Qed.

Lemma check_and_sync_out c st s :
  out_of_tolerance c st = true →
  check_and_sync c st s
  = setTime (add_event (ELog LOG_INFO (MsgDeltaTooBig (total_micros c st) c st)) s).
Proof. intros H. unfold check_and_sync. by rewrite H. Qed.

Lemma out_of_tolerance_spec c st :
  out_of_tolerance c st = true
  ↔ seconds 70 < total_micros c st ∨ total_micros c st < seconds (-10).
Proof.
  clear localtime US.
  unfold out_of_tolerance. rewrite orb_true_iff, !Z.ltb_lt. tauto.
Qed.

(** C1, on the code: a dataset of exactly 32 tokens whose tokens 1 and 2
    parse as a timestamp is accepted, and the packet built from it gives
    every token 3..31 unchanged, as a string, to the field of its position.
    The round yields this packet and no other when the timestamp is within
    tolerance, and when it is not and both transfers of the time-set
    succeed.  When the timestamp is out of tolerance and a transfer of the
    time-set fails, the round ends in [NameError] and yields no record. *)
Theorem C1_tokens_to_fields s s1 dataset station_now :
  read_usb_dataset s = (Ret dataset, s1) →
  length (split dataset) = 32%nat →
  strptime (timestamp_text (split dataset)) = Some station_now →
  let ds := split dataset in
  let _packet := make_packet (the_time s) ds in
  let drift := out_of_tolerance (localtime (clock s1)) station_now in
  parse_dataset dataset s1 = (Ret (Some (ds, localtime (clock s1), station_now)), s1)
  ∧ (∀ i, (3 ≤ i ≤ 31)%nat →
       ∃ key, sensor_fields !! (i - 3)%nat = Some key
              ∧ _packet !! key = Some (PStr (ds !!! i)))
  ∧ (drift = false ∨ (∃ rest, ctl_in s = true :: true :: rest) →
     ∃ s2, loop_round s = (Ret (Some _packet), s2)
           ∧ yielded s2 = yielded s ++ [_packet])
  ∧ (drift = true →
     (∃ rest, ctl_in s = false :: rest ∨ ctl_in s = true :: false :: rest) →
     ∃ s2, loop_round s = (Raise NameError, s2) ∧ yielded s2 = yielded s).
Proof.
  intros Hread Hlen Htime ds _packet drift.
  destruct (read_usb_dataset_port _ _ _ Hread) as [h Hd].
  pose proof (read_usb_dataset_keeps s) as (Hy1 & _ & Hd1 & Hc1 & _).
  rewrite Hread in Hy1, Hd1, Hc1. simpl in Hy1, Hd1, Hc1.
  pose proof (check_and_sync_keeps (localtime (clock s1)) station_now s1) as (Hy & _).
  split; [|split; [|split]].
  - by apply parse_dataset_accept.
  - intros i Hi.
    destruct (sensor_fields !! (i - 3)%nat) as [key|] eqn:Hkey.
    + exists key. split; [done|].
      unfold _packet. rewrite (make_packet_fields _ _ _ _ Hkey).
      by replace (3 + (i - 3))%nat with i by lia.
    + apply lookup_ge_None in Hkey.
      change (length sensor_fields) with 29%nat in Hkey. lia.
  - intros Hcase.
    assert (Hsync : (check_and_sync (localtime (clock s1)) station_now s1).1
                    = Ret tt).
    { destruct drift eqn:Hdrift; subst drift.
      - destruct Hcase as [|[rest Hctl]]; [done|].
        rewrite (check_and_sync_out _ _ _ Hdrift).
        erewrite (setTime_succeeds _ h rest); [done| |]; simpl; congruence.
      - by rewrite (check_and_sync_in _ _ _ Hdrift). }
    rewrite (loop_round_accepted s s1 dataset station_now Hread Hlen Htime).
    destruct (check_and_sync (localtime (clock s1)) station_now s1) as [[[]|e|] s2];
      try discriminate.
    eexists. split; [reflexivity|].
    rewrite pace_yielded, yielded_add_event. simpl in Hy. by rewrite Hy, Hy1.
  - intros Hdrift [rest Hctl]. subst drift.
    rewrite (loop_round_accepted s s1 dataset station_now Hread Hlen Htime).
    rewrite (check_and_sync_out _ _ _ Hdrift) in *.
    set (s1' := add_event _ s1) in *.
    assert (Hd' : devh s1' = Some h) by (simpl; congruence).
    assert (Hfail : ∃ s2, setTime s1' = (Raise NameError, s2)).
    { destruct Hctl as [Hc|Hc].
      - eexists. apply (setTime_first_fails s1' h rest); [done|]. simpl. congruence.
      - eexists. apply (setTime_second_fails s1' h rest); [done|]. simpl. congruence. }
    destruct Hfail as [s2 Hfail]. rewrite Hfail in *. simpl in Hy.
    exists s2. split; [done|]. by rewrite Hy, Hy1.
Qed.

(** C8, on the code: with an accepted dataset whose timestamp is out of
    tolerance, a failing control transfer of the time-set ends the round in
    [NameError]: the packet is not yielded. *)
Theorem C8_drift_discards_record s s1 dataset station_now rest :
  read_usb_dataset s = (Ret dataset, s1) →
  length (split dataset) = 32%nat →
  strptime (timestamp_text (split dataset)) = Some station_now →
  out_of_tolerance (localtime (clock s1)) station_now = true →
  ctl_in s = false :: rest ∨ ctl_in s = true :: false :: rest →
  ∃ s2, loop_round s = (Raise NameError, s2) ∧ yielded s2 = yielded s.
Proof.
  intros Hread Hlen Htime Hout Hctl.
  destruct (read_usb_dataset_port _ _ _ Hread) as [h Hd].
  pose proof (read_usb_dataset_keeps s) as (Hy1 & _ & Hd1 & Hc1 & _).
  rewrite Hread in Hy1, Hd1, Hc1. simpl in Hy1, Hd1, Hc1.
  pose proof (check_and_sync_keeps (localtime (clock s1)) station_now s1) as (Hy & _).
  rewrite (loop_round_accepted s s1 dataset station_now Hread Hlen Htime).
  rewrite (check_and_sync_out _ _ _ Hout) in *.
  set (s1' := add_event _ s1) in *.
  assert (Hd' : devh s1' = Some h) by (simpl; congruence).
  assert (Hfail : ∃ s2, setTime s1' = (Raise NameError, s2)).
  { destruct Hctl as [Hc|Hc].
    - eexists. apply (setTime_first_fails s1' h rest); [done|]. simpl. congruence.
    - eexists. apply (setTime_second_fails s1' h rest); [done|]. simpl. congruence. }
  destruct Hfail as [s2 Hfail]. rewrite Hfail in *. simpl in Hy.
  exists s2. split; [done|]. by rewrite Hy, Hy1.
Qed.




(** ** Pacing *)

Section Steady.
Context (P : Sys → Prop).

Lemma steady_ret {A} (a : A) : steady P (mret a).
Proof. by intros s. Qed.

Lemma steady_raise {A} e : e ≠ USBError → steady P (@raise A e).
Proof. intros He s Hs. split; [done|]. simpl. congruence. Qed.

Lemma steady_starve {A} : steady P (@starve A).
Proof. by intros s. Qed.

Lemma steady_bind {A B} (m : M A) (k : A → M B) :
  steady P m → (∀ a, steady P (k a)) → steady P (m ≫= k).
Proof.
  intros Hm Hk s Hs. destruct (Hm s Hs) as [Hs' Hr].
  unfold mbind, M_bind. destruct (m s) as [[a|e|] s']; simpl in *.
  - by apply Hk.
  - split; [done|]. intros [= ->]. by apply Hr.
  - by split.
Qed.

Lemma steady_while {A} fuel (cond : A → bool) body a :
  (∀ a, steady P (body a)) → steady P (while fuel cond body a).
Proof.
  intros Hb. revert a. induction fuel as [|n IH]; intros a; simpl.
  - destruct (cond a); [apply steady_starve | apply steady_ret].
  - destruct (cond a); [|apply steady_ret].
    apply steady_bind; auto.
Qed.
End Steady.




Lemma recv_dataset_Raise s e s1 :
  read_usb_dataset s = (Raise e, s1) → e ≠ USBError →
  recv_dataset s = (Raise e, s1).
Proof.
  intros H He. unfold recv_dataset, try_except.
  rewrite (bind_Raise _ _ _ _ _ H). by destruct e.
Qed.


Lemma pace_sleeps s :
  0 < the_time s + seconds loop_interval - clock s →
  pace s
  = (Ret tt,
     set_the_time (the_time s + seconds loop_interval)
       (set_clock (the_time s + seconds loop_interval)
          (add_event (ESleep (the_time s + seconds loop_interval - clock s)) s))).
Proof.
  intros Hpos. unfold pace.
  cbv [mbind M_bind mret M_ret get time_time time_sleep emit modify].
  apply Z.ltb_lt in Hpos as ->. simpl. do 3 f_equal. lia.
Qed.

Lemma pace_resets s :
  the_time s + seconds loop_interval - clock s ≤ 0 →
  pace s = (Ret tt, set_the_time (clock s) s).
Proof.
  intros Hneg. unfold pace.
  cbv [mbind M_bind mret M_ret get time_time time_sleep emit modify].
  by apply Z.ltb_ge in Hneg as ->.
Qed.





Lemma parse_dataset_yielded dataset s :
  yielded (parse_dataset dataset s).2 = yielded s.
Proof.
  apply (parse_dataset_frame (λ x, yielded x = yielded s)); try done.
  intros e x He Hx. by rewrite yielded_add_other.
Qed.

(** A round yields at most once, and only the packet it returns. *)
Lemma loop_round_yields_once s :
  yielded (loop_round s).2
  = yielded s ++ match (loop_round s).1 with Ret (Some p) => [p] | _ => [] end.
Proof.
  unfold loop_round.
  pose proof (recv_dataset_yielded s) as Hy1.
  destruct (recv_dataset s) as [[[dataset|]|e|] s1] eqn:Hr; cbn [snd] in Hy1;
    [ rewrite (bind_Ret _ _ _ _ _ Hr)
    | rewrite (bind_Ret _ _ _ _ _ Hr); cbv [mret M_ret]; cbn [fst snd]; by rewrite Hy1, app_nil_r
    | rewrite (bind_Raise _ _ _ _ _ Hr); cbv [mret M_ret]; cbn [fst snd]; by rewrite Hy1, app_nil_r
    | rewrite (bind_Starved _ _ _ _ Hr); cbv [mret M_ret]; cbn [fst snd]; by rewrite Hy1, app_nil_r ].
  pose proof (parse_dataset_yielded dataset s1) as Hy2.
  destruct (parse_dataset dataset s1) as [[[[[ds c] st]|]|e|] s2] eqn:Hp;
    cbn [snd] in Hy2;
    [ rewrite (bind_Ret _ _ _ _ _ Hp)
    | rewrite (bind_Ret _ _ _ _ _ Hp); cbv [mret M_ret]; cbn [fst snd]; by rewrite Hy2, Hy1, app_nil_r
    | rewrite (bind_Raise _ _ _ _ _ Hp); cbv [mret M_ret]; cbn [fst snd]; by rewrite Hy2, Hy1, app_nil_r
    | rewrite (bind_Starved _ _ _ _ Hp); cbv [mret M_ret]; cbn [fst snd]; by rewrite Hy2, Hy1, app_nil_r ].
  pose proof (check_and_sync_keeps c st s2) as (Hy3 & _).
  destruct (check_and_sync c st s2) as [[[]|e|] s3] eqn:Hs; cbn [snd] in Hy3;
    [ rewrite (bind_Ret _ _ _ _ _ Hs)
    | rewrite (bind_Raise _ _ _ _ _ Hs); cbn [fst snd];
      by rewrite Hy3, Hy2, Hy1, app_nil_r
    | rewrite (bind_Starved _ _ _ _ Hs); cbn [fst snd];
      by rewrite Hy3, Hy2, Hy1, app_nil_r ].
  cbv [mbind M_bind mret M_ret get emit modify]. rewrite pace_Ret.
  cbn [fst snd]. rewrite pace_yielded, yielded_add_event.
  by rewrite Hy3, Hy2, Hy1.
Qed.


(** ** Recovery *)

Lemma _find_device_answer s a rest :
  bus_in s = a :: rest →
  ∃ s', _find_device s = (Ret (scan_found a), s')
        ∧ bus_in s' = rest ∧ devh s' = devh s.
Proof.
  intros Hb. unfold _find_device.
  cbv [mbind M_bind mret M_ret get modify emit elapse loginf logmsg_].
  rewrite Hb. destruct (scan_found a); eexists; (split; [reflexivity|by split]).
Qed.

Lemma retry_then {B} cur (k : Z * option usb_device → M B) s :
  (retry (cur, None) ≫= k) s
  = (dev ← _find_device; k (cur + seconds openport_interval, dev)) (waited cur s).
Proof.
  unfold retry, waited.
  cbv [mbind M_bind mret M_ret get modify emit logerr logmsg_ time_time time_sleep].
  sys_simpl.
  destruct (0 <? cur + seconds openport_interval - clock s); sys_simpl;
    by destruct (_find_device _) as [[?| |] ?].
Qed.

Lemma waited_keeps cur s :
  bus_in (waited cur s) = bus_in s ∧ devh (waited cur s) = devh s.
Proof.
  unfold waited.
  by destruct (0 <? cur + seconds openport_interval - clock s).
Qed.

Lemma discover fuel : ∀ missed hit dev rest cur s,
  bus_in s = missed ++ hit :: rest →
  Forall misses missed → scan_found hit = Some dev →
  (length missed ≤ fuel)%nat →
  ∃ cur' s',
    (dev0 ← _find_device; while fuel (λ r, not_found r.2) retry (cur, dev0)) s
    = (Ret (cur', Some dev), s')
    ∧ bus_in s' = rest ∧ devh s' = devh s.
Proof.
  induction fuel as [|n IH]; intros missed hit dev rest cur s Hb Hmiss Hhit Hf.
  - destruct missed; [|simpl in Hf; lia].
    destruct (_find_device_answer s hit rest Hb) as (s1 & Hfind & Hb1 & Hd1).
    rewrite (bind_Ret _ _ _ _ _ Hfind), Hhit.
    exists cur, s1. by rewrite while_false.
  - destruct missed as [|a missed].
    + destruct (_find_device_answer s hit rest Hb) as (s1 & Hfind & Hb1 & Hd1).
      rewrite (bind_Ret _ _ _ _ _ Hfind), Hhit.
      exists cur, s1. by rewrite while_false.
    + apply Forall_cons in Hmiss as [Ha Hmiss].
      destruct (_find_device_answer s a _ Hb) as (s1 & Hfind & Hb1 & Hd1).
      rewrite (bind_Ret _ _ _ _ _ Hfind), Ha.
      rewrite while_true by done. rewrite retry_then.
      destruct (waited_keeps cur s1) as [Hbw Hdw].
      destruct (IH missed hit dev rest (cur + seconds openport_interval)
                  (waited cur s1))
        as (cur' & s' & Hrun & Hb' & Hd'); [by rewrite Hbw|done..|simpl in Hf; lia|].
      exists cur', s'. split; [exact Hrun|]. split; [done|]. congruence.
Qed.

Lemma openPort_reopens s missed hit dev rest :
  devh s = None →
  bus_in s = missed ++ hit :: rest →
  Forall misses missed → scan_found hit = Some dev →
  ∃ s',
    openPort s
    = (if dev_opens dev && dev_claims dev then Ret tt else Raise WeeWxIOError, s')
    ∧ devh s' = (if dev_opens dev && dev_claims dev then Some dev else None)
    ∧ bus_in s' = rest.
Proof.
  intros Hd Hb Hmiss Hhit. unfold openPort.
  erewrite bind_Ret by reflexivity. rewrite Hd.
  erewrite bind_Ret by reflexivity.
  erewrite bind_Ret by reflexivity.
  rewrite bind_assoc.
  destruct (discover (length (bus_in s)) missed hit dev rest (clock s) s)
    as (cur' & s1 & Hrun & Hb1 & Hd1); [done..| |].
  { rewrite Hb, length_app. lia. }
  rewrite (bind_Ret _ _ _ _ _ Hrun). cbn [snd].
  cbv [mbind M_bind mret M_ret get modify emit try_except raise closePort
       logcrt logmsg_].
  destruct (dev_opens dev), (dev_claims dev); sys_simpl;
    eexists; (split; [reflexivity|]); by sys_simpl.
Qed.

Lemma read_usb_dataset_lost s s1 :
  read_usb_dataset s = (Raise USBError, s1) → is_Some (devh s).
Proof.
  intros Hread. destruct (devh s) as [h|] eqn:Hd; [by eexists|].
  unfold read_usb_dataset, next_frame, read_usb_block in Hread.
  cbv [mbind M_bind mret M_ret get] in Hread. rewrite Hd in Hread. discriminate.
Qed.

Lemma openPort_trace t0 s :
  (∃ l, trace s = t0 ++ l) → ∃ l, trace (openPort s).2 = t0 ++ l.
Proof.
  apply (openPort_frame (λ x, ∃ l, trace x = t0 ++ l)); try done.
  intros e x _ [l Hl]. exists (l ++ [e]). simpl. by rewrite Hl, app_assoc.
Qed.

Lemma openPort_yielded s : yielded (openPort s).2 = yielded s.
Proof.
  apply (openPort_frame (λ x, yielded x = yielded s)); try done.
  intros e x He Hx. by rewrite yielded_add_other.
Qed.

(** C5, as amended: a USB error raised during the reassembly is caught in
    the round.  The round logs it and releases the port, then waits until
    the bus shows the station and opens it.  When the open and the claim
    succeed, the round sets the pacing clock to the time it is then, yields
    nothing, and the loop goes on with its next round; when the open or the
    claim fails, the round raises [WeeWxIOError] to the consumer and the
    port stays closed. *)
Theorem C5_transport_lost s s1 missed hit dev rest :
  read_usb_dataset s = (Raise USBError, s1) →
  bus_in s = missed ++ hit :: rest →
  Forall misses missed → scan_found hit = Some dev →
  ∃ s2 l,
    trace s2 = trace s1 ++ ELog LOG_ERR MsgLostUSB :: ERelease :: l
    ∧ yielded s2 = yielded s
    ∧ bus_in s2 = rest
    ∧ (loop_round s).1 ≠ Raise USBError
    ∧ if dev_opens dev && dev_claims dev
      then loop_round s = (Ret None, s2)
           ∧ devh s2 = Some dev
           ∧ the_time s2 = clock s2
           ∧ ∀ n, genLoopPackets (S n) s = genLoopPackets n s2
      else loop_round s = (Raise WeeWxIOError, s2)
           ∧ devh s2 = None.
Proof.
  intros Hread Hb Hmiss Hhit.
  destruct (read_usb_dataset_lost _ _ Hread) as [h Hd].
  pose proof (read_usb_dataset_keeps s) as (Hy1 & _ & Hd1 & _ & Hb1).
  rewrite Hread in Hy1, Hd1, Hb1. cbn [snd] in Hy1, Hd1, Hb1.
  set (sc := set_devh None
               (add_event ERelease (add_event (ELog LOG_ERR MsgLostUSB) s1))).
  destruct (openPort_reopens sc missed hit dev rest) as (so & Hopen & Hdo & Hbo);
    [done|by rewrite <- Hb, <- Hb1|done..|].
  destruct (openPort_trace (trace s1 ++ [ELog LOG_ERR MsgLostUSB; ERelease]) sc)
    as [l Hl].
  { exists []. subst sc. sys_simpl. by rewrite <- !app_assoc. }
  pose proof (openPort_yielded sc) as Hyo.
  rewrite Hopen in Hl, Hyo. cbn [snd] in Hl, Hyo.
  assert (Hysc : yielded sc = yielded s).
  { subst sc. unfold yielded in *. sys_simpl.
    rewrite !omap_app. cbn [omap]. by rewrite !app_nil_r. }
  assert (Hrecv : recv_dataset s
    = if dev_opens dev && dev_claims dev
      then (Ret None, set_the_time (clock so) so)
      else (Raise WeeWxIOError, so)).
  { unfold recv_dataset, try_except. rewrite (bind_Raise _ _ _ _ _ Hread).
    cbv [mbind M_bind mret M_ret get modify emit try_except raise closePort
         logerr logmsg_ time_time] in *.
    sys_simpl. rewrite <- Hd1 in Hd. rewrite Hd. fold sc. rewrite Hopen.
    by destruct (dev_opens dev && dev_claims dev). }
  unfold loop_round.
  destruct (dev_opens dev && dev_claims dev).
  - exists (set_the_time (clock so) so), l. sys_simpl.
    rewrite (bind_Ret _ _ _ _ _ Hrecv).
    split; [by rewrite Hl, <- app_assoc|]. split; [by rewrite <- Hysc, <- Hyo|].
    do 2 (split; [done|]). split; [done|]. split; [done|]. split; [done|].
    intros n. cbn [genLoopPackets]. unfold loop_round.
    rewrite (bind_Ret _ (λ r, rest ← genLoopPackets n; mret _) _ _ _
               (bind_Ret _ _ _ _ _ Hrecv)).
    apply bind_mret_id.
  - exists so, l. rewrite (bind_Raise _ _ _ _ _ Hrecv).
    split; [by rewrite Hl, <- app_assoc|]. split; [by rewrite <- Hysc, <- Hyo|].
    by repeat split.
Qed.

(** ** The keys of a packet *)

Lemma loop_round_packet s p s' :
  loop_round s = (Ret (Some p), s') → ∃ t ds, p = make_packet t ds.
Proof.
  intros H. unfold loop_round in H.
  cbv [mbind M_bind mret M_ret get emit modify] in H.
  destruct (recv_dataset s) as [[[dataset|]|e|] s1]; try discriminate.
  destruct (parse_dataset dataset s1) as [[[[[ds c] st]|]|e|] s2]; try discriminate.
  destruct (check_and_sync c st s2) as [[[]|e|] s3]; try discriminate.
  destruct (pace _) as [[[]|e|] s4]; try discriminate.
  injection H as <- <-. eauto.
Qed.

Lemma make_packet_keys t ds :
  dom (make_packet t ds) = packet_keys
  ∧ size (make_packet t ds) = 31%nat
  ∧ Forall (λ k, is_Some (make_packet t ds !! String.append k "  ")
                 ∧ make_packet t ds !! k = None) channel_temps
  ∧ make_packet t ds !! "usUnits" = Some (PUnits US).
Proof.
  split; [reflexivity|]. split; [reflexivity|]. split; [|reflexivity].
  repeat constructor; by eexists.
Qed.

(** C10, as amended: every packet that a round yields has the same 31
    keys: dateTime, the 29 sensor fields of tokens 3 to 31, and usUnits.
    The seven auxiliary temperature keys are ch1Temp to ch7Temp followed by
    two spaces, the names without the spaces are not keys, and usUnits
    holds the one unit-system tag. *)
Theorem C10_packet_keys s p s' :
  loop_round s = (Ret (Some p), s') →
  dom p = packet_keys
  ∧ size p = 31%nat
  ∧ length sensor_fields = 29%nat
  ∧ NoDup ("dateTime"%string :: sensor_fields ++ ["usUnits"%string])
  ∧ Forall (λ k, is_Some (p !! String.append k "  ") ∧ p !! k = None)
           channel_temps
  ∧ p !! "usUnits" = Some (PUnits US).
Proof.
  intros Hround. destruct (loop_round_packet s p s' Hround) as (t & ds & ->).
  destruct (make_packet_keys t ds) as (Hdom & Hsize & Hch & Hus).
  split; [done|]. split; [done|]. split; [reflexivity|].
  split; [|by split].
  apply (bool_decide_unpack _). by vm_compute.
Qed.
(** ** More of the driver: closing the port and scanning the busses *)

(** X1: [closePort] never raises and leaves the port closed.  On an open
    port it attempts one release; on a closed port it changes nothing, so
    that closing twice is closing once. *)
Theorem closePort_idempotent s :
  closePort s
  = (Ret tt,
     match devh s with
     | Some _ => set_devh None (add_event ERelease s)
     | None => set_devh None s
     end)
  ∧ devh (closePort s).2 = None
  ∧ new_events s (closePort s).2
    = match devh s with Some _ => [ERelease] | None => [] end
  ∧ (closePort;; closePort) s = closePort s.
Proof.
  clear strptime localtime US.
  assert (Hrun : closePort s
    = (Ret tt, match devh s with
               | Some _ => set_devh None (add_event ERelease s)
               | None => set_devh None s
               end)).
  { unfold closePort, try_except.
    cbv [mbind M_bind mret M_ret get modify emit raise].
    by destruct (devh s). }
  split; [exact Hrun|]. rewrite (bind_Ret _ _ _ _ _ Hrun), Hrun.
  unfold new_events. destruct (devh s) as [h|] eqn:Hd; sys_simpl.
  - rewrite drop_app_length. by repeat split.
  - rewrite drop_all. by repeat split.
Qed.

Lemma scan_busses_flat busses :
  scan_busses busses = scan_devices (concat (devices <$> busses)).
Proof.
  clear strptime localtime US.
  induction busses as [|bus busses IH]; [done|].
  rewrite fmap_cons. cbn [concat scan_busses]. rewrite IH.
  induction (devices bus) as [|d ds IHd]; [done|].
  cbn [scan_devices app]. by destruct (is_station d).
Qed.

Lemma scan_devices_first devs dev :
  scan_devices devs = Some dev
  ↔ ∃ pre post, devs = pre ++ dev :: post
                ∧ is_station dev = true
                ∧ Forall (λ d, is_station d = false) pre.
Proof.
  clear strptime localtime US.
  induction devs as [|d devs IH]; cbn [scan_devices].
  - split; [done|]. intros (pre & post & Heq & _). by destruct pre.
  - destruct (is_station d) eqn:Hd.
    + split.
      * intros [= ->]. exists [], devs. by repeat split.
      * intros (pre & post & Heq & Hdev & Hpre).
        destruct pre as [|d' pre]; simplify_eq/=; [done|].
        apply Forall_cons in Hpre as [Hd' _]. congruence.
    + rewrite IH. split.
      * intros (pre & post & -> & Hdev & Hpre).
        exists (d :: pre), post. repeat split; [done|by constructor].
      * intros (pre & post & Heq & Hdev & Hpre).
        destruct pre as [|d' pre]; simplify_eq/=; [congruence|].
        apply Forall_cons in Hpre as [_ Hpre]. by exists pre, post.
Qed.

Lemma scan_devices_none devs :
  scan_devices devs = None ↔ Forall (λ d, is_station d = false) devs.
Proof.
  clear strptime localtime US.
  induction devs as [|d devs IH]; cbn [scan_devices]; [by split|].
  rewrite Forall_cons. destruct (is_station d); [|by rewrite IH; tauto].
  split; [done|]. by intros [? _].
Qed.

(** X2: the bus scan returns a device only if its vendor id is 0x1941 and
    its product id is 0x8021, and then it is the first such device in the
    order of the busses and of the devices on each bus; it returns nothing
    exactly when no device on any bus has both ids. *)
Theorem scan_busses_first_station busses :
  (∀ dev, scan_busses busses = Some dev
     ↔ ∃ pre post, concat (devices <$> busses) = pre ++ dev :: post
                   ∧ (idVendor dev = 0x1941 ∧ idProduct dev = 0x8021)
                   ∧ Forall (λ d, ¬ (idVendor d = 0x1941 ∧ idProduct d = 0x8021)) pre)
  ∧ (scan_busses busses = None
     ↔ Forall (λ d, ¬ (idVendor d = 0x1941 ∧ idProduct d = 0x8021))
              (concat (devices <$> busses))).
Proof.
  clear strptime localtime US.
  assert (Hst : ∀ d, is_station d = true
                     ↔ idVendor d = 0x1941 ∧ idProduct d = 0x8021).
  { intros d. unfold is_station, vendor_id, product_id.
    by rewrite andb_true_iff, !Z.eqb_eq. }
  assert (Hns : ∀ d, is_station d = false
                     ↔ ¬ (idVendor d = 0x1941 ∧ idProduct d = 0x8021)).
  { intros d. rewrite <- Hst. by destruct (is_station d). }
  rewrite scan_busses_flat. split.
  - intros dev. rewrite scan_devices_first.
    split; intros (pre & post & Heq & Hdev & Hpre); exists pre, post;
      (split; [done|]); (split; [by apply Hst|]);
      (eapply Forall_impl; [exact Hpre|]); intros d; apply Hns.
  - rewrite scan_devices_none.
    split; intros H; (eapply Forall_impl; [exact H|]); intros d; apply Hns.
Qed.

(** ** More of the driver: one block, one time-set *)

(** X3: [read_usb_block] on a closed port raises [AttributeError] and on a
    request type outside d4, d42, d5, d52 raises [KeyError], in both cases
    before any USB traffic; when the control transfer fails it raises
    [USBError] without attempting the interrupt read; and a block it
    returns has at most 64 bytes. *)
Theorem read_usb_block_edges requesttype s :
  (devh s = None → read_usb_block requesttype s = (Raise AttributeError, s))
  ∧ (is_Some (devh s) → requesttype ∉ ["d4"; "d42"; "d5"; "d52"]%string →
     read_usb_block requesttype s = (Raise KeyError, s))
  ∧ (∀ rest, is_Some (devh s) → requesttype ∈ ["d4"; "d42"; "d5"; "d52"]%string →
     usb_in s = ControlFails :: rest →
     (read_usb_block requesttype s).1 = Raise USBError
     ∧ (EInterruptRead ∉ new_events s (read_usb_block requesttype s).2)
     ∧ clock (read_usb_block requesttype s).2 = clock s)
  ∧ (∀ block s', read_usb_block requesttype s = (Ret block, s') →
     (length block ≤ 64)%nat).
Proof.
  clear strptime localtime US.
  assert (Hreq : requesttype ∈ ["d4"; "d42"; "d5"; "d52"]%string
                 ↔ is_Some (requestbytes requesttype)).
  { unfold requestbytes. rewrite !elem_of_cons, elem_of_nil.
    destruct (String.eqb_spec requesttype "d4"); [by split; [eexists|left]|].
    destruct (String.eqb_spec requesttype "d42"); [by split; [eexists|right; left]|].
    destruct (String.eqb_spec requesttype "d5");
      [by split; [eexists|right; right; left]|].
    destruct (String.eqb_spec requesttype "d52");
      [by split; [eexists|right; right; right; left]|].
    split; [|by intros [? [=]]].
    by intros [->|[->|[->|[->|[]]]]]. }
  unfold read_usb_block.
  cbv [mbind M_bind mret M_ret get modify emit elapse raise starve].
  split; [|split; [|split]].
  - by intros ->.
  - intros [h ->] Hnot.
    destruct (requestbytes requesttype) eqn:Hr; [|done].
    exfalso. apply Hnot, Hreq. by eexists.
  - intros rest [h ->] [req Hr]%Hreq Hu. rewrite Hr, Hu. sys_simpl.
    split; [done|]. split; [|done].
    unfold new_events. sys_simpl. rewrite drop_app_length.
    by intros [=]%list_elem_of_singleton.
  - intros block s'. destruct (devh s); [|done].
    destruct (requestbytes requesttype); [|done].
    destruct (usb_in s) as [|[|dt|r] rest]; try done.
    intros [= <- _]. rewrite length_take. unfold usb_read_size. lia.
Qed.

(** X4: when both control transfers succeed, [setTime] sends exactly two
    of them, the date command and then the time command, both built from
    one reading of the host clock, logs, and returns; it changes neither
    the pacing clock nor the host clock nor the port.  When the first one
    fails the second one is not attempted. *)
Theorem setTime_transfers s h rest :
  devh s = Some h →
  (ctl_in s = true :: true :: rest →
   let now := localtime (clock s) in
   (setTime s).1 = Ret tt
   ∧ new_events s (setTime s).2
     = [EControl (date_command now); EControl (time_command now);
        ELog LOG_INFO (MsgSetTime now)]
   ∧ ctl_in (setTime s).2 = rest)
  ∧ (ctl_in s = false :: rest →
     new_events s (setTime s).2
     = [EControl (date_command (localtime (clock s)))]
     ∧ ctl_in (setTime s).2 = rest)
  ∧ the_time (setTime s).2 = the_time s
  ∧ clock (setTime s).2 = clock s
  ∧ devh (setTime s).2 = devh s
  ∧ usb_in (setTime s).2 = usb_in s.
Proof.
  intros Hd. split; [|split].
  - intros Hc now. rewrite (setTime_succeeds s h rest Hd Hc).
    unfold new_events. sys_simpl.
    rewrite <- !app_assoc, drop_app_length. by repeat split.
  - intros Hc. rewrite (setTime_first_fails s h rest Hd Hc).
    unfold new_events. sys_simpl. rewrite drop_app_length. by split.
  - repeat split.
    + by apply (setTime_frame (λ x, the_time x = the_time s)).
    + by apply (setTime_frame (λ x, clock x = clock s)).
    + by apply (setTime_frame (λ x, devh x = devh s)).
    + by apply (setTime_frame (λ x, usb_in x = usb_in s)).
Qed.

(** X5: both commands are eight values framed by 0xfc and 0xfd.  For a
    calendar date and a time of day, the time command holds byte values
    only, and the date command does exactly when the year is in 2000..2255:
    the year is sent as [year - 2000] in one byte. *)
Theorem setTime_payload_bytes (now : datetime) :
  1 ≤ month now ≤ 12 → 1 ≤ day now ≤ 31 →
  0 ≤ hour now ≤ 23 → 0 ≤ minute now ≤ 59 → 0 ≤ second now ≤ 59 →
  length (date_command now) = 8%nat
  ∧ length (time_command now) = 8%nat
  ∧ head (date_command now) = Some 0xfc ∧ last (date_command now) = Some 0xfd
  ∧ head (time_command now) = Some 0xfc ∧ last (time_command now) = Some 0xfd
  ∧ Forall (λ b, 0 ≤ b < 256) (time_command now)
  ∧ (Forall (λ b, 0 ≤ b < 256) (date_command now) ↔ 2000 ≤ year now ≤ 2255).
Proof.
  clear strptime localtime US.
  intros Hm Hd Hh Hmi Hs. unfold date_command, time_command.
  do 6 (split; [reflexivity|]). split.
  - repeat constructor; lia.
  - rewrite !Forall_cons, Forall_nil. lia.
Qed.

(** ** More of the driver: what the loop never raises *)

Lemma steady_get {A} (f : Sys → A) : steady (λ _, True) (get f).
Proof. by intros s. Qed.

Lemma steady_modify f : steady (λ _, True) (modify f).
Proof. by intros s. Qed.

Lemma steady_try {A} (m : M A) h :
  (∀ e, steady (λ _, True) (h e)) → steady (λ _, True) (try_except m h).
Proof.
  intros Hh s _. unfold try_except.
  destruct (m s) as [[a|e|] s']; [by split| |by split].
  by apply Hh.
Qed.

(** The structural steps of a proof that a call does not raise
    [USBError]. *)
Ltac quiet :=
  repeat first
    [ apply steady_ret
    | apply steady_starve
    | apply steady_get
    | apply steady_modify
    | apply steady_raise; discriminate
    | apply steady_bind; [|intros ?]
    | apply steady_while; intros ?
    | apply steady_try; intros ?
    | match goal with
      | |- steady _ (match ?x with _ => _ end) => destruct x
      end
    | progress unfold emit, elapse, time_sleep, time_time, logerr, loginf,
        logcrt, logdbg, logmsg_, datetime_now ].

Lemma closePort_quiet : steady (λ _, True) closePort.
Proof. clear strptime localtime US. unfold closePort. quiet. Qed.

Lemma openPort_quiet : steady (λ _, True) openPort.
Proof.
  clear strptime localtime US.
  unfold openPort, retry, _find_device.
  repeat first [ apply closePort_quiet | progress quiet ].
Qed.

Lemma recv_dataset_quiet : steady (λ _, True) recv_dataset.
Proof.
  clear strptime localtime US.
  unfold recv_dataset.
  repeat first [ apply closePort_quiet | apply openPort_quiet | progress quiet ].
Qed.

Lemma setTime_quiet : steady (λ _, True) setTime.
Proof. clear strptime US. unfold setTime. quiet. Qed.

Lemma loop_round_quiet : steady (λ _, True) loop_round.
Proof.
  unfold loop_round, parse_dataset, check_and_sync, pace.
  repeat first [ apply recv_dataset_quiet | apply setTime_quiet | progress quiet ].
Qed.

(** X6: whatever the state and whatever the device and the bus answer, a
    round of the loop, and so any number of rounds, does not end in
    [USBError]: the transport error is caught in the round, and neither the
    reopening nor the time-set lets one out. *)
Theorem genLoopPackets_never_USBError n s :
  (loop_round s).1 ≠ Raise USBError
  ∧ (genLoopPackets n s).1 ≠ Raise USBError.
Proof.
  split; [by apply loop_round_quiet|].
  revert s. induction n as [|n IH]; intros s; [done|].
  cbn [genLoopPackets].
  assert (Hgo : steady (λ _, True)
    (r ← loop_round; rest ← genLoopPackets n;
     mret (match r with Some p => p :: rest | None => rest end))).
  { apply steady_bind; [apply loop_round_quiet|]. intros r.
    apply steady_bind; [|intros; apply steady_ret].
    intros s' _. split; [done|apply IH]. }
  by apply Hgo.
Qed.

(** ** More of the driver: the pacing clock after a round *)

Ltac sys_simpl_in H :=
  cbn [fst snd devh the_time clock usb_in ctl_in bus_in trace set_devh
       set_the_time set_clock set_usb_in set_ctl_in set_bus_in add_event] in H.

Lemma recv_dataset_Some s dataset s1 :
  recv_dataset s = (Ret (Some dataset), s1) →
  read_usb_dataset s = (Ret dataset, s1).
Proof.
  clear strptime localtime US.
  unfold recv_dataset, try_except. unfold mbind at 1, M_bind at 1.
  destruct (read_usb_dataset s) as [[d|e|] s0]; [by intros [= -> ->]| |done].
  destruct e; try done.
  cbv [mbind M_bind mret M_ret].
  intros H. repeat (destruct (_ _) as [[?|?|] ?] in H; try done).
Qed.

Lemma parse_dataset_Some dataset s ds c st s' :
  parse_dataset dataset s = (Ret (Some (ds, c, st)), s') →
  s' = s ∧ ds = split dataset ∧ c = localtime (clock s)
  ∧ length (split dataset) = 32%nat
  ∧ strptime (timestamp_text (split dataset)) = Some st.
Proof.
  unfold parse_dataset.
  destruct (Nat.eqb_spec (length (split dataset)) 32) as [Hlen|]; [|done].
  cbn [negb]. unfold datetime_now, time_time. cbv [mbind M_bind mret M_ret get].
  destruct (strptime (timestamp_text (split dataset))); [|done].
  by intros [= <- <- <- <-].
Qed.

Lemma loop_round_yield_reads s p s' :
  loop_round s = (Ret (Some p), s') →
  ∃ dataset s1, read_usb_dataset s = (Ret dataset, s1).
Proof.
  intros Hrun. unfold loop_round in Hrun.
  unfold mbind at 1, M_bind at 1 in Hrun.
  destruct (recv_dataset s) as [[[dataset|]|e|] s1] eqn:Hrecv; try done.
  apply recv_dataset_Some in Hrecv. by exists dataset, s1.
Qed.

(** X7: a round that yields a packet stamps it with the pacing clock it
    started with, and ends with the pacing clock equal to the host clock
    and at least one loop interval later than it was: exactly one interval
    later when the read had ended before the next slot, and at the time the
    read ended otherwise. *)
Theorem loop_round_pacing s p s' :
  loop_round s = (Ret (Some p), s') →
  ∃ dataset s1,
    read_usb_dataset s = (Ret dataset, s1)
    ∧ p = make_packet (the_time s) (split dataset)
    ∧ the_time s' = clock s'
    ∧ the_time s' = Z.max (the_time s + seconds loop_interval) (clock s1).
Proof.
  intros Hround. pose proof Hround as Hrun. unfold loop_round in Hrun.
  unfold mbind at 1, M_bind at 1 in Hrun.
  destruct (recv_dataset s) as [[[dataset|]|e|] s1] eqn:Hrecv; try done.
  apply recv_dataset_Some in Hrecv.
  unfold mbind at 1, M_bind at 1 in Hrun.
  destruct (parse_dataset dataset s1) as [[[[[ds c] st]|]|e|] s2] eqn:Hparse;
    try done.
  apply parse_dataset_Some in Hparse as (-> & -> & -> & Hlen & Htime).
  clear Hrun.
  rewrite (loop_round_accepted s s1 dataset st Hrecv Hlen Htime) in Hround.
  pose proof (check_and_sync_keeps (localtime (clock s1)) st s1)
    as (_ & Ht2 & _ & Hc2 & _).
  pose proof (read_usb_dataset_keeps s) as (_ & Ht1 & _).
  rewrite Hrecv in Ht1. cbn [snd] in Ht1.
  destruct (check_and_sync _ _ s1) as [[[]|e|] s2]; try done.
  cbn [snd] in Ht2, Hc2. injection Hround as <- <-.
  exists dataset, s1. split; [done|]. split; [done|].
  set (sy := add_event (EYield _) s2).
  destruct (Z.lt_ge_cases 0 (the_time sy + seconds loop_interval - clock sy))
    as [Hpos|Hneg].
  - rewrite (pace_sleeps sy Hpos). subst sy. sys_simpl. sys_simpl_in Hpos.
    split; [done|]. lia.
  - rewrite (pace_resets sy Hneg). subst sy. sys_simpl. sys_simpl_in Hneg.
    split; [done|]. lia.
Qed.

(** ** More of the driver: opening the port *)

Lemma _find_device_run s a rest :
  bus_in s = a :: rest →
  ∃ s' l, _find_device s = (Ret (scan_found a), s')
          ∧ bus_in s' = rest ∧ devh s' = devh s
          ∧ clock s' = clock s + scan_took a
          ∧ trace s' = trace s ++ l ∧ Forall scan_event l.
Proof.
  clear strptime localtime US.
  intros Hb. unfold _find_device.
  cbv [mbind M_bind mret M_ret get modify emit elapse loginf logmsg_].
  rewrite Hb. destruct (scan_found a); eexists _, _;
    (split; [reflexivity|]); sys_simpl; do 3 (split; [done|]).
  - rewrite <- app_assoc. split; [reflexivity|]. by repeat constructor.
  - split; [reflexivity|]. by repeat constructor.
Qed.

Lemma waited_run cur s :
  bus_in (waited cur s) = bus_in s ∧ devh (waited cur s) = devh s
  ∧ (∃ l, trace (waited cur s) = trace s ++ l ∧ Forall scan_event l)
  ∧ (0 < cur + seconds openport_interval - clock s →
     clock (waited cur s) = cur + seconds openport_interval).
Proof.
  clear strptime localtime US.
  unfold waited.
  destruct (Z.ltb_spec 0 (cur + seconds openport_interval - clock s));
    sys_simpl; do 2 (split; [done|]); (split; [|intros; lia]).
  - eexists. rewrite <- app_assoc. split; [reflexivity|]. by repeat constructor.
  - eexists. split; [reflexivity|]. by repeat constructor.
Qed.

Lemma discover_full fuel : ∀ missed hit dev rest cur s,
  bus_in s = missed ++ hit :: rest →
  Forall misses missed → scan_found hit = Some dev →
  (length missed ≤ fuel)%nat →
  ∃ cur' s' l,
    (dev0 ← _find_device; while fuel (λ r, not_found r.2) retry (cur, dev0)) s
    = (Ret (cur', Some dev), s')
    ∧ bus_in s' = rest ∧ devh s' = devh s
    ∧ trace s' = trace s ++ l ∧ Forall scan_event l
    ∧ (Forall quick missed → clock s = cur →
       clock s'
       = cur + seconds openport_interval * Z.of_nat (length missed)
         + scan_took hit).
Proof.
  clear strptime localtime US.
  assert (Hhit : ∀ fuel hit dev rest cur s,
    bus_in s = hit :: rest → scan_found hit = Some dev →
    ∃ cur' s' l,
      (dev0 ← _find_device; while fuel (λ r, not_found r.2) retry (cur, dev0)) s
      = (Ret (cur', Some dev), s')
      ∧ bus_in s' = rest ∧ devh s' = devh s
      ∧ trace s' = trace s ++ l ∧ Forall scan_event l
      ∧ (Forall quick [] → clock s = cur →
         clock s' = cur + seconds openport_interval * Z.of_nat 0 + scan_took hit)).
  { intros fuel' hit dev rest cur s Hb Hfound.
    destruct (_find_device_run s hit rest Hb)
      as (s1 & l & Hfind & Hb1 & Hd1 & Hc1 & Ht1 & Hl1).
    rewrite (bind_Ret _ _ _ _ _ Hfind), Hfound.
    exists cur, s1, l. rewrite while_false by done.
    do 5 (split; [done|]). intros _ <-. lia. }
  induction fuel as [|n IH]; intros missed hit dev rest cur s Hb Hmiss Hfound Hf.
  - destruct missed; [|simpl in Hf; lia]. by apply Hhit.
  - destruct missed as [|a missed]; [by apply Hhit|].
    apply Forall_cons in Hmiss as [Ha Hmiss].
    destruct (_find_device_run s a _ Hb)
      as (s1 & l1 & Hfind & Hb1 & Hd1 & Hc1 & Ht1 & Hl1).
    rewrite (bind_Ret _ _ _ _ _ Hfind), Ha.
    rewrite while_true by done. rewrite retry_then.
    destruct (waited_run cur s1) as (Hbw & Hdw & (lw & Htw & Hlw) & Hcw).
    destruct (IH missed hit dev rest (cur + seconds openport_interval)
                (waited cur s1))
      as (cur' & s' & l & Hrun & Hb' & Hd' & Ht' & Hl' & Hc');
      [by rewrite Hbw|done..|simpl in Hf; lia|].
    exists cur', s', (l1 ++ lw ++ l). split; [exact Hrun|].
    split; [done|]. split; [congruence|].
    split; [by rewrite Ht', Htw, Ht1, <- !app_assoc|].
    split; [by rewrite !Forall_app|].
    intros [Hqa Hq]%Forall_cons Hcur.
    rewrite Hc'; [|done|].
    + rewrite length_cons. lia.
    + apply Hcw. unfold quick in Hqa. lia.
Qed.

Lemma openPort_run s missed hit dev rest :
  devh s = None →
  bus_in s = missed ++ hit :: rest →
  Forall misses missed → scan_found hit = Some dev →
  ∃ s1 l,
    openPort s
    = (if dev_opens dev && dev_claims dev then Ret tt else Raise WeeWxIOError,
       opened dev s1)
    ∧ bus_in s1 = rest
    ∧ trace s1 = trace s ++ l ∧ Forall scan_event l
    ∧ (Forall quick missed →
       clock s1
       = clock s + seconds openport_interval * Z.of_nat (length missed)
         + scan_took hit).
Proof.
  clear strptime localtime US.
  intros Hd Hb Hmiss Hhit. unfold openPort.
  erewrite bind_Ret by reflexivity. rewrite Hd.
  erewrite bind_Ret by reflexivity.
  erewrite bind_Ret by reflexivity.
  rewrite bind_assoc.
  destruct (discover_full (length (bus_in s)) missed hit dev rest (clock s) s)
    as (cur' & s1 & l & Hrun & Hb1 & Hd1 & Ht1 & Hl1 & Hc1); [done..| |].
  { rewrite Hb, length_app. lia. }
  rewrite (bind_Ret _ _ _ _ _ Hrun). cbn [snd].
  exists s1, l. split.
  - unfold opened.
    cbv [mbind M_bind mret M_ret get modify emit try_except raise closePort
         logcrt logmsg_].
    by destruct (dev_opens dev), (dev_claims dev).
  - do 3 (split; [done|]). intros Hq. by apply Hc1.
Qed.

Lemma opened_keeps dev s1 :
  clock (opened dev s1) = clock s1 ∧ bus_in (opened dev s1) = bus_in s1
  ∧ the_time (opened dev s1) = the_time s1
  ∧ devh (opened dev s1)
    = if dev_opens dev && dev_claims dev then Some dev else None.
Proof.
  clear strptime localtime US.
  unfold opened. by destruct (dev_opens dev), (dev_claims dev).
Qed.

(** X8: while the station is not on the bus, [openPort] enumerates the
    busses on a fixed 15 s grid that starts when it was called: when every
    enumeration that misses takes less than 15 s, the one that finds the
    station after k misses starts exactly 15 s times k after the call,
    whatever the enumerations took. *)
Theorem openPort_retry_grid s missed hit dev rest :
  devh s = None →
  bus_in s = missed ++ hit :: rest →
  Forall misses missed → Forall quick missed → scan_found hit = Some dev →
  clock (openPort s).2
  = clock s + seconds 15 * Z.of_nat (length missed) + scan_took hit
  ∧ bus_in (openPort s).2 = rest.
Proof.
  clear strptime localtime US.
  intros Hd Hb Hmiss Hq Hhit.
  destruct (openPort_run s missed hit dev rest Hd Hb Hmiss Hhit)
    as (s1 & l & -> & Hb1 & _ & _ & Hc1).
  cbn [snd]. destruct (opened_keeps dev s1) as (-> & -> & _).
  split; [by apply Hc1|done].
Qed.

(** X9: once the station is on the bus, [openPort] ends in one of three
    ways, after a discovery that only scans, logs and sleeps.  If the open
    gives no handle it raises [WeeWxIOError] without detaching or claiming
    anything.  If the claim fails it releases the interface, logs at
    critical level, raises [WeeWxIOError] and leaves the port closed.
    Otherwise it returns with the port open, and calling it again changes
    nothing. *)
Theorem openPort_outcomes s missed hit dev rest :
  devh s = None →
  bus_in s = missed ++ hit :: rest →
  Forall misses missed → scan_found hit = Some dev →
  ∃ l, Forall scan_event l ∧
    match dev_opens dev, dev_claims dev with
    | false, _ =>
      (openPort s).1 = Raise WeeWxIOError
      ∧ devh (openPort s).2 = None
      ∧ new_events s (openPort s).2 = l ++ [EOpen]
    | true, false =>
      (openPort s).1 = Raise WeeWxIOError
      ∧ devh (openPort s).2 = None
      ∧ new_events s (openPort s).2
        = l ++ [EOpen; EDetach; EClaim; ERelease; ELog LOG_CRIT MsgUnableClaim]
    | true, true =>
      (openPort s).1 = Ret tt
      ∧ devh (openPort s).2 = Some dev
      ∧ new_events s (openPort s).2 = l ++ [EOpen; EDetach; EClaim]
      ∧ openPort (openPort s).2 = (Ret tt, (openPort s).2)
    end.
Proof.
  clear strptime localtime US.
  intros Hd Hb Hmiss Hhit.
  destruct (openPort_run s missed hit dev rest Hd Hb Hmiss Hhit)
    as (s1 & l & -> & _ & Ht1 & Hl1 & _).
  exists l. split; [done|]. unfold new_events, opened.
  destruct (dev_opens dev), (dev_claims dev); sys_simpl; rewrite Ht1;
    rewrite <- ?app_assoc; rewrite drop_app_length; by repeat split.
Qed.

(** ** More of the driver: construction and the configurator *)

Lemma setTime_Ret_open s s' :
  setTime s = (Ret tt, s') → is_Some (devh s).
Proof.
  clear strptime US.
  intros Hrun. destruct (devh s) as [h|] eqn:Hd; [by eexists|].
  unfold setTime, controlMsg, try_except, datetime_now, time_time in Hrun.
  cbv [mbind M_bind mret M_ret get raise] in Hrun. by rewrite Hd in Hrun.
Qed.

Lemma init_unfold s :
  init s
  = (openPort;; setTime)
      (set_devh None
         (add_event (ELog LOG_INFO MsgDriverVersion) (set_the_time (clock s) s))).
Proof. clear strptime US. reflexivity. Qed.

(** X10: the constructor.  When the station comes onto the bus and can be
    opened and claimed, [__init__] leaves the port open and the pacing
    clock at the time the constructor was entered, however long the
    discovery waited; it returns when both transfers of its time-set
    succeed and raises [NameError], with the port still claimed, when one
    of them fails.  When the station cannot be opened or claimed it raises
    [WeeWxIOError] before any time-set, with the port closed. *)
Theorem init_outcomes s missed hit dev rest :
  bus_in s = missed ++ hit :: rest →
  Forall misses missed → scan_found hit = Some dev →
  the_time (init s).2 = clock s
  ∧ if dev_opens dev && dev_claims dev
    then devh (init s).2 = Some dev
         ∧ (∀ r, ctl_in s = true :: true :: r → (init s).1 = Ret tt)
         ∧ (∀ r, ctl_in s = false :: r ∨ ctl_in s = true :: false :: r →
              (init s).1 = Raise NameError)
    else (init s).1 = Raise WeeWxIOError
         ∧ devh (init s).2 = None
         ∧ ctl_in (init s).2 = ctl_in s.
Proof.
  clear strptime US.
  intros Hb Hmiss Hhit. rewrite init_unfold.
  set (s0 := set_devh None _).
  destruct (openPort_run s0 missed hit dev rest) as (s1 & l & Hopen & _);
    [done..|].
  pose proof (openPort_frame (λ x, the_time x = clock s)) as Ht.
  specialize (Ht ltac:(done) ltac:(done) ltac:(done) ltac:(done) s0 eq_refl).
  pose proof (openPort_frame (λ x, ctl_in x = ctl_in s)) as Hc.
  specialize (Hc ltac:(done) ltac:(done) ltac:(done) ltac:(done) s0 eq_refl).
  rewrite Hopen in Ht, Hc. cbn [snd] in Ht, Hc.
  destruct (opened_keeps dev s1) as (_ & _ & _ & Hd1).
  destruct (dev_opens dev && dev_claims dev).
  - rewrite (bind_Ret _ _ _ _ _ Hopen).
    pose proof (setTime_frame (λ x, the_time x = clock s)) as Ht'.
    specialize (Ht' ltac:(done) ltac:(done) _ Ht).
    pose proof (setTime_frame (λ x, devh x = Some dev)) as Hd'.
    specialize (Hd' ltac:(done) ltac:(done) _ Hd1).
    split; [done|]. split; [done|]. split.
    + intros r Hr. by rewrite (setTime_succeeds _ dev r) by congruence.
    + intros r [Hr|Hr].
      * by rewrite (setTime_first_fails _ dev r) by congruence.
      * by rewrite (setTime_second_fails _ dev r) by congruence.
  - rewrite (bind_Raise _ _ _ _ _ Hopen). by repeat split.
Qed.

Lemma show_live_never_returns n s : (show_live n s).1 ≠ Ret tt.
Proof.
  unfold show_live. unfold mbind, M_bind.
  by destruct (genLoopPackets n s) as [[?|?|] ?].
Qed.

(** X11: the configurator.  With [--live] the packet loop runs and
    [do_options] does not return, whatever [--set-time] says, so that its
    [closePort] is only reached without [--live].  With [--set-time] alone
    the station's time is set a second time, after the one of the
    constructor, and the port is then released; when that second time-set
    fails, at its first or at its second transfer, [NameError] leaves
    [do_options] with the port still open.  With
    neither option the port is opened and released. *)
Theorem do_options_modes n s :
  (∀ b, (do_options n true b s).1 ≠ Ret tt
        ∧ do_options n true b s = do_options n true (negb b) s)
  ∧ (∀ s1, init s = (Ret tt, s1) →
       is_Some (devh s1)
       ∧ (∀ r, ctl_in s1 = true :: true :: r →
            let now := localtime (clock s1) in
            (do_options n false true s).1 = Ret tt
            ∧ devh (do_options n false true s).2 = None
            ∧ new_events s1 (do_options n false true s).2
              = [EControl (date_command now); EControl (time_command now);
                 ELog LOG_INFO (MsgSetTime now); ERelease])
       ∧ (∀ r, ctl_in s1 = false :: r ∨ ctl_in s1 = true :: false :: r →
            (do_options n false true s).1 = Raise NameError
            ∧ devh (do_options n false true s).2 = devh s1
            ∧ ERelease ∉ new_events s1 (do_options n false true s).2)
       ∧ do_options n false false s = closePort s1).
Proof.
  split.
  - intros b. split; [|by destruct b].
    unfold do_options. unfold mbind at 1, M_bind at 1.
    destruct (init s) as [[[]|e|] s1]; [|done..].
    unfold mbind at 1, M_bind at 1.
    pose proof (show_live_never_returns n s1) as Hlive.
    by destruct (show_live n s1) as [[[]|e|] s2].
  - intros s1 Hinit.
    assert (Hopen : is_Some (devh s1)).
    { rewrite init_unfold in Hinit. unfold mbind at 1, M_bind at 1 in Hinit.
      destruct (openPort _) as [[[]|e|] s0]; [|done..].
      pose proof (setTime_frame (λ x, devh x = devh s0)) as Hd.
      specialize (Hd ltac:(done) ltac:(done) s0 eq_refl).
      rewrite Hinit in Hd. cbn [snd] in Hd. rewrite Hd.
      by eapply setTime_Ret_open. }
    destruct Hopen as [h Hd]. split; [by eexists|].
    unfold do_options, set_time. rewrite !(bind_Ret _ _ _ _ _ Hinit).
    split; [|split].
    + intros r Hr. cbv zeta.
      rewrite (bind_Ret _ _ _ _ _ (setTime_succeeds s1 h r Hd Hr)).
      unfold closePort, try_except, new_events.
      cbv [mbind M_bind mret M_ret get modify emit raise]. sys_simpl.
      rewrite Hd. sys_simpl. rewrite <- !app_assoc, drop_app_length.
      by repeat split.
    + intros r [Hr|Hr].
      * rewrite (bind_Raise _ _ _ _ _ (setTime_first_fails s1 h r Hd Hr)).
        unfold new_events. sys_simpl. rewrite drop_app_length.
        repeat split. by intros [=]%list_elem_of_singleton.
      * rewrite (bind_Raise _ _ _ _ _ (setTime_second_fails s1 h r Hd Hr)).
        unfold new_events. sys_simpl. rewrite <- !app_assoc, drop_app_length.
        repeat split. intros Hin. simpl in Hin.
        apply elem_of_cons in Hin as [[=]|Hin].
        by apply list_elem_of_singleton in Hin.
    + by erewrite bind_Ret by reflexivity.
Qed.

(** ** More of the driver: reads that do not end well *)

Lemma seek_abort fuel pre rest s h (bad : res frame) s_e :
  devh s = Some h →
  usb_in s = (Block <$> pre) ++ rest →
  Forall block64 pre → Forall (λ r, ¬ starts r) pre →
  (length pre ≤ fuel)%nat →
  next_frame (after_blocks pre s) = (bad, s_e) →
  match bad with Ret _ => False | _ => True end →
  (f ← next_frame; while fuel (λ f, negb (is_start f)) (λ _, next_frame) f) s
  = (match bad with Ret f => Ret f | Raise e => Raise e | Starved => Starved end,
     s_e).
Proof.
  clear strptime localtime US.
  revert s fuel.
  induction pre as [|p pre IH]; intros s fuel Hd Hu H64 Hpre Hf Hbad Hno.
  - cbn [after_blocks foldl] in Hbad. unfold mbind, M_bind. rewrite Hbad.
    by destruct bad.
  - apply Forall_cons in H64 as [Hp64 H64]. apply Forall_cons in Hpre as [Hp Hpre].
    rewrite (bind_Ret _ _ _ _ _ (next_frame_Block s h p _ Hd Hu Hp64)).
    destruct fuel as [|n]; [simpl in Hf; lia|].
    rewrite while_true
      by (rewrite is_start_block; by rewrite bool_decide_eq_false_2).
    simpl in Hu. apply (IH (after_block p s) n); try done.
    + simpl. by rewrite Hu.
    + simpl in Hf. lia.
Qed.

Lemma collect_abort fuel run rest d b s h (bad : res frame) s_e :
  devh s = Some h →
  usb_in s = (Block <$> run) ++ rest →
  Forall block64 run → continues b → Forall continues run →
  (length run < fuel)%nat →
  next_frame (after_blocks run s) = (bad, s_e) →
  match bad with Ret _ => False | _ => True end →
  while fuel (λ r, in_dataset r.2) append_next (d, block_frame b) s
  = (match bad with Ret f => Starved | Raise e => Raise e | Starved => Starved end,
     s_e).
Proof.
  clear strptime localtime US.
  revert s fuel d b.
  induction run as [|r run IH]; intros s fuel d b Hd Hu H64 Hb Hrun Hf Hbad Hno;
    (destruct fuel as [|n]; [simpl in Hf; lia|]);
    (rewrite while_true by (simpl; rewrite in_dataset_block; by rewrite bool_decide_eq_true_2)).
  - cbn [after_blocks foldl] in Hbad. unfold append_next.
    unfold mbind, M_bind. rewrite Hbad. by destruct bad.
  - apply Forall_cons in H64 as [Hr64 H64]. apply Forall_cons in Hrun as [Hr Hrun].
    rewrite (bind_Ret _ _ _ _ _ (append_next_Block d _ s h r _ Hd Hu Hr64)).
    simpl in Hu. apply (IH (after_block r s) n); try done.
    + simpl. by rewrite Hu.
    + simpl in Hf. lia.
Qed.

(** A read that meets, after the blocks [good], a [next_frame] that does
    not return, ends as that [next_frame] does. *)
Lemma read_usb_dataset_abort s h good rest (bad : res frame) s_e :
  devh s = Some h →
  usb_in s = (Block <$> good) ++ rest →
  Forall block64 good → in_progress good →
  next_frame (after_blocks good s) = (bad, s_e) →
  match bad with Ret _ => False | _ => True end →
  read_usb_dataset s
  = (match bad with Ret f => Starved | Raise e => Raise e | Starved => Starved end,
     s_e).
Proof.
  clear strptime localtime US.
  intros Hd Hu H64 Hprog Hbad Hno.
  assert (Hlen : (length good ≤ length (usb_in s))%nat).
  { rewrite Hu, length_app, length_fmap. lia. }
  unfold read_usb_dataset. erewrite bind_Ret by reflexivity.
  rewrite bind_assoc.
  destruct Hprog as [Hseek|(pre & start & run & -> & Hpre & Hst & Hrun)].
  - pose proof (seek_abort (length (usb_in s)) good rest s h
                  bad s_e Hd Hu H64 Hseek Hlen Hbad Hno) as Hrun.
    destruct bad as [f|e|]; [done| |].
    + by rewrite (bind_Raise _ _ _ _ _ Hrun).
    + by rewrite (bind_Starved _ _ _ _ Hrun).
  - apply Forall_app in H64 as [Hp64 H64]. apply Forall_cons in H64 as [Hs64 Hr64].
    rewrite fmap_app, fmap_cons, <- app_assoc in Hu. cbn [app] in Hu.
    rewrite length_app in Hlen. cbn [length] in Hlen.
    erewrite bind_Ret by (eapply seek_start; eauto; lia).
    assert (Hu1 : usb_in (after_blocks (pre ++ [start]) s)
                  = (Block <$> run) ++ rest).
    { apply after_blocks_usb_in. rewrite fmap_app, <- app_assoc. exact Hu. }
    assert (Hbad1 : next_frame (after_blocks run (after_blocks (pre ++ [start]) s))
                    = (bad, s_e)).
    { rewrite <- after_blocks_app, <- app_assoc. exact Hbad. }
    pose proof (collect_abort (length (usb_in s)) run rest EmptyString start
                  (after_blocks (pre ++ [start]) s) h bad s_e
                  ltac:(by rewrite after_blocks_devh) Hu1 Hr64 (or_introl Hst)
                  Hrun ltac:(lia) Hbad1 Hno) as Hcol.
    destruct bad as [f|e|]; [done| |].
    + by rewrite (bind_Raise _ _ _ _ _ Hcol).
    + by rewrite (bind_Starved _ _ _ _ Hcol).
Qed.

Lemma next_frame_short s h r rest :
  devh s = Some h → usb_in s = Block r :: rest →
  (length (data r) < 7)%nat →
  next_frame s = (Raise IndexError, after_block r s).
Proof.
  clear strptime localtime US.
  intros Hd Hu Hlen. unfold next_frame.
  rewrite (bind_Ret _ _ _ _ _ (read_usb_block_Block s h r rest Hd Hu)).
  rewrite take_ge by (unfold usb_read_size; lia).
  unfold getitem.
  destruct (data r) as [|b0 [|b1 [|b2 [|b3 [|b4 [|b5 [|b6 l]]]]]]];
    simpl in Hlen; try lia; reflexivity.
Qed.

Lemma next_frame_fails s h a rest :
  devh s = Some h → usb_in s = a :: rest →
  a = ControlFails ∨ (∃ dt, a = ReadFails dt) →
  ∃ s', next_frame s = (Raise USBError, s') ∧ usb_in s' = rest.
Proof.
  clear strptime localtime US.
  intros Hd Hu Ha. unfold next_frame, read_usb_block.
  cbv [mbind M_bind mret M_ret get modify emit elapse raise].
  rewrite Hd. cbn [requestbytes String.eqb Ascii.eqb Bool.eqb]. rewrite Hu.
  destruct Ha as [->|[dt ->]]; by eexists.
Qed.

Lemma loop_round_raises s e s1 :
  read_usb_dataset s = (Raise e, s1) → e ≠ USBError →
  loop_round s = (Raise e, s1)
  ∧ ∀ n, genLoopPackets (S n) s = (Raise e, s1).
Proof.
  intros Hread He.
  assert (Hround : loop_round s = (Raise e, s1)).
  { unfold loop_round.
    by rewrite (bind_Raise _ _ _ _ _ (recv_dataset_Raise _ _ _ Hread He)). }
  split; [done|]. intros n. cbn [genLoopPackets].
  by rewrite (bind_Raise _ _ _ _ _ Hround).
Qed.

(** X12: a block of fewer than 7 bytes, wherever it comes in a read, ends
    [read_usb_dataset] in [IndexError]; the round does not catch it, and it
    leaves the packet loop. *)
Theorem short_block_leaves_loop s h good r rest :
  devh s = Some h →
  usb_in s = (Block <$> good) ++ Block r :: rest →
  Forall block64 good → in_progress good →
  (length (data r) < 7)%nat →
  read_usb_dataset s = (Raise IndexError, after_blocks (good ++ [r]) s)
  ∧ loop_round s = (Raise IndexError, after_blocks (good ++ [r]) s)
  ∧ ∀ n, genLoopPackets (S n) s
         = (Raise IndexError, after_blocks (good ++ [r]) s).
Proof.
  intros Hd Hu H64 Hprog Hshort.
  assert (Hread : read_usb_dataset s
                  = (Raise IndexError, after_blocks (good ++ [r]) s)).
  { rewrite after_blocks_app.
    apply (read_usb_dataset_abort s h good (Block r :: rest)
             (Raise IndexError)); try done.
    apply (next_frame_short _ h r rest); [|by apply after_blocks_usb_in|done].
    by rewrite after_blocks_devh. }
  split; [done|]. by apply loop_round_raises.
Qed.

Lemma recv_dataset_after_error s s1 :
  read_usb_dataset s = (Raise USBError, s1) →
  usb_in (recv_dataset s).2 = usb_in s1.
Proof.
  clear strptime localtime US.
  intros Hread. unfold recv_dataset, try_except.
  rewrite (bind_Raise _ _ _ _ _ Hread).
  assert (Hkeep : preserves (λ x, usb_in x = usb_in s1)
    (logerr MsgLostUSB;; closePort;; openPort;;
     now ← time_time; modify (set_the_time now);; mret (@None string))).
  { apply preserves_bind;
      [unfold logerr, logmsg_, emit; by apply preserves_modify|intros _].
    apply preserves_bind; [by apply closePort_frame|intros _].
    apply preserves_bind; [by apply openPort_frame|intros _].
    apply preserves_bind; [apply preserves_get|intros now].
    apply preserves_bind; [by apply preserves_modify|intros _].
    apply preserves_ret. }
  by apply Hkeep.
Qed.

Lemma loop_round_recovering s :
  (∀ d, (recv_dataset s).1 ≠ Ret (Some d)) →
  (loop_round s).2 = (recv_dataset s).2.
Proof.
  intros Hnone. unfold loop_round. unfold mbind at 1, M_bind at 1.
  destruct (recv_dataset s) as [[[d|]|e|] s2]; try done.
  by destruct (Hnone d).
Qed.

(** X13: a transport error, wherever it comes in a read, ends
    [read_usb_dataset] in [USBError] with the blocks read so far dropped:
    the round parses nothing and yields nothing, and the next read starts
    with the answer that follows the failed one. *)
Theorem transport_error_drops_blocks s h good bad rest :
  devh s = Some h →
  usb_in s = (Block <$> good) ++ bad :: rest →
  Forall block64 good → in_progress good →
  bad = ControlFails ∨ (∃ dt, bad = ReadFails dt) →
  ∃ s1,
    read_usb_dataset s = (Raise USBError, s1)
    ∧ usb_in s1 = rest
    ∧ usb_in (loop_round s).2 = rest
    ∧ (∀ p, (loop_round s).1 ≠ Ret (Some p))
    ∧ yielded (loop_round s).2 = yielded s.
Proof.
  intros Hd Hu H64 Hprog Hbad.
  destruct (next_frame_fails (after_blocks good s) h bad rest)
    as (s1 & Hnext & Hu1); [by rewrite after_blocks_devh|
                            by apply after_blocks_usb_in|done|].
  pose proof (read_usb_dataset_abort s h good (bad :: rest) (Raise USBError)
                s1 Hd Hu H64 Hprog Hnext I) as Hread.
  exists s1. split; [done|]. split; [done|].
  assert (Hrecv : (recv_dataset s).1 ≠ Ret (Some EmptyString)
                  ∧ ∀ d, (recv_dataset s).1 ≠ Ret (Some d)).
  { split; [|intros d]; intros Hr;
      destruct (recv_dataset s) as [r s2] eqn:Heq; cbn [fst] in Hr; subst r;
      apply recv_dataset_Some in Heq; congruence. }
  destruct Hrecv as [_ Hrecv].
  assert (Hnone : ∀ p, (loop_round s).1 ≠ Ret (Some p)).
  { intros p Hp. destruct (loop_round s) as [r s2] eqn:Heq. cbn [fst] in Hp.
    subst r. destruct (loop_round_yield_reads s p s2 Heq) as (d & s3 & Hd3).
    congruence. }
  assert (Husb : usb_in (loop_round s).2 = rest).
  { rewrite (loop_round_recovering s Hrecv).
    by rewrite (recv_dataset_after_error s s1 Hread). }
  split; [done|]. split; [done|].
  rewrite loop_round_yields_once.
  destruct (loop_round s).1 as [[p|]|e|] eqn:Hr; rewrite ?app_nil_r; try done.
  by destruct (Hnone p).
Qed.

(** ** More of the driver: what a reassembly returns *)

Lemma byte_of_Z_value z :
  0 ≤ z < 256 → Z.of_N (Byte.to_N (byte_of_Z z)) = z.
Proof.
  clear strptime localtime US.
  intros Hz. unfold byte_of_Z.
  erewrite Byte.to_of_N by (symmetry; apply byte_of_ascii_via_N).
  rewrite N_ascii_embedding by lia. lia.
Qed.

Lemma length_list_byte_of_string t :
  length (list_byte_of_string t) = String.length t.
Proof.
  clear strptime localtime US.
  unfold list_byte_of_string. rewrite List.length_map.
  induction t as [|c t IH]; [done|]. simpl. by rewrite IH.
Qed.

Lemma join_chr_bytes t : join_chr (list_byte_of_string t) = t.
Proof.
  clear strptime localtime US.
  unfold join_chr. rewrite <- (string_of_list_byte_of_string t) at 2.
  reflexivity.
Qed.

Lemma carrier_block code text :
  0 ≤ code < 256 → (String.length text ≤ 57)%nat →
  block64 (carrier code text)
  ∧ block_code (carrier code text) = code
  ∧ block_len (carrier code text) = Z.of_nat (String.length text)
  ∧ block_text (carrier code text) = text.
Proof.
  clear strptime localtime US.
  intros Hc Hlen. unfold carrier, mk_block.
  assert (Hb : length (list_byte_of_string text) = String.length text)
    by apply length_list_byte_of_string.
  assert (Hl6 : block_len
    (mkBlock 0 (take 64 ([byte_of_Z 254; x00; x00; x00; x00; byte_of_Z code;
                          byte_of_Z (Z.of_nat (String.length text))]
                         ++ list_byte_of_string text ++ replicate 64 x00)))
    = Z.of_nat (String.length text)).
  { unfold block_len, byte_at. cbn. apply byte_of_Z_value. lia. }
  split; [|split; [|split]].
  - unfold block64. cbn [data]. rewrite length_take, !length_app, Hb.
    rewrite length_replicate. cbn [length]. lia.
  - unfold block_code, byte_at. cbn. by apply byte_of_Z_value.
  - exact Hl6.
  - unfold block_text, payload, block_frame, py_slice. cbn [packetlen response].
    rewrite Hl6. cbn [data]. rewrite Nat2Z.id.
    replace (7 + String.length text - 7)%nat with (String.length text) by lia.
    change (drop 7 (take 64 (?h ++ ?x))) with (take 57 x).
    rewrite take_take, Nat.min_l by lia.
    rewrite <- Hb, take_app_length. apply join_chr_bytes.
Qed.

(** X14: reassembly undoes the framing.  After any blocks without the start
    code, when the station sends texts of at most 57 characters each, the
    first in a start block and the others in middle or end blocks, each
    declaring the length of its text, and then a block with another code,
    [read_usb_dataset] returns the texts joined in the order sent, and the
    next read starts after that last block. *)
Theorem framed_texts_reassemble s h pre t0 (ts : list (Z * string)) term rest :
  devh s = Some h →
  usb_in s
  = (Block <$> pre) ++ Block (carrier 0x31 t0)
    :: (Block <$> ((λ ct, carrier ct.1 ct.2) <$> ts)) ++ Block term :: rest →
  Forall block64 (pre ++ [term]) →
  Forall (λ r, ¬ starts r) pre → ¬ continues term →
  Forall (λ ct, (ct.1 = 0x32 ∨ ct.1 = 0x33) ∧ (String.length ct.2 ≤ 57)%nat) ts →
  (String.length t0 ≤ 57)%nat →
  ∃ s', read_usb_dataset s = (Ret (concat_text (t0 :: ts.*2)), s')
        ∧ usb_in s' = rest.
Proof.
  clear strptime localtime US.
  intros Hd Hu H64 Hpre Hterm Hts Ht0.
  apply Forall_app in H64 as [Hp64 Ht64].
  destruct (carrier_block 0x31 t0 ltac:(lia) Ht0) as (H064 & H0c & _ & H0t).
  assert (Hrun : Forall (λ r, block64 r ∧ continues r)
                   ((λ ct, carrier ct.1 ct.2) <$> ts)
                 ∧ block_text <$> ((λ ct, carrier ct.1 ct.2) <$> ts) = ts.*2).
  { clear Hu. induction ts as [|[c t] ts IH]; [by split|].
    apply Forall_cons in Hts as [[Hc Hl] Hts]. cbn [fst snd] in Hc, Hl.
    destruct (IH Hts) as [IH1 IH2].
    destruct (carrier_block c t ltac:(lia) Hl) as (Hb64 & Hbc & _ & Hbt).
    rewrite !fmap_cons. cbn [fst snd]. split.
    - constructor; [|done]. split; [done|].
      unfold continues. rewrite Hbc. tauto.
    - by rewrite Hbt, IH2. }
  destruct Hrun as [Hrun Htexts].
  eexists. split.
  - rewrite (read_usb_dataset_run s h pre (carrier 0x31 t0)
               ((λ ct, carrier ct.1 ct.2) <$> ts) term rest); try done.
    + by rewrite fmap_cons, H0t, Htexts.
    + rewrite Forall_app, Forall_cons, Forall_app. split; [done|].
      split; [done|]. split; [|done].
      eapply Forall_impl; [exact Hrun|]. by intros r [? ?].
    + eapply Forall_impl; [exact Hrun|]. by intros r [? ?].
  - apply after_blocks_usb_in. rewrite Hu.
    rewrite !fmap_app, !fmap_cons, !fmap_app.
    repeat (rewrite <- app_assoc || rewrite <- app_comm_cons). reflexivity.
Qed.

(** ** More of the driver: tokens *)

Lemma split_from_end cur : split_from cur EmptyString = flush cur.
Proof. clear strptime localtime US. by destruct cur. Qed.

Lemma split_from_whitespace w : ∀ cur s,
  whitespace w → w ≠ EmptyString →
  split_from cur (String.append w s) = flush cur ++ split_from [] s.
Proof.
  clear strptime localtime US.
  induction w as [|c w IH]; intros cur s Hw Hne; [done|].
  unfold whitespace in Hw. cbn [list_ascii_of_string] in Hw.
  apply Forall_cons in Hw as [Hc Hw].
  rewrite append_cons. cbn [split_from]. rewrite Hc.
  destruct w as [|c' w].
  - rewrite append_nil_l. by destruct cur.
  - destruct cur; by rewrite IH.
Qed.

Lemma split_from_word t : ∀ cur s,
  Forall (λ c, isspace c = false) (list_ascii_of_string t) →
  split_from cur (String.append t s)
  = split_from (rev (list_ascii_of_string t) ++ cur) s.
Proof.
  clear strptime localtime US.
  induction t as [|c t IH]; intros cur s Ht; [done|].
  cbn [list_ascii_of_string] in Ht. apply Forall_cons in Ht as [Hc Ht].
  rewrite append_cons. cbn [split_from]. rewrite Hc, IH by done.
  cbn [list_ascii_of_string rev]. by rewrite <- app_assoc.
Qed.

Lemma flush_word t cur :
  cur = rev (list_ascii_of_string t) → t ≠ EmptyString → flush cur = [t].
Proof.
  clear strptime localtime US.
  intros -> Hne. unfold flush.
  destruct (rev (list_ascii_of_string t)) eqn:Hrev.
  - apply (f_equal (@length _)) in Hrev. rewrite length_rev in Hrev.
    destruct t; [done|]. discriminate.
  - by rewrite <- Hrev, rev_involutive, string_of_list_ascii_of_string.
Qed.

Lemma split_spaced items :
  well_spaced items → split_from [] (spaced items) = items.*1.
Proof.
  clear strptime localtime US.
  induction items as [|[t w] items IH]; [done|].
  intros ([Hne Ht] & Hw & Hlast & Hitems). cbn [spaced].
  rewrite split_from_word, app_nil_r by done. rewrite fmap_cons. cbn [fst].
  destruct w as [|c w].
  - rewrite (Hlast eq_refl). cbn [spaced]. rewrite append_nil_l, split_from_end.
    by rewrite (flush_word t).
  - rewrite split_from_whitespace by done.
    by rewrite (flush_word t), IH.
Qed.

(** X15: tokens come back from the text as they went in.  When the
    dataset is a run of whitespace followed by words, each separated from
    the next by a run of whitespace (blanks, tabs, line ends), [split]
    returns exactly the words; and with 32 words the packet holds word 3 to
    word 31, unchanged, under the field of their position. *)
Theorem spaced_words_round_trip w0 items :
  whitespace w0 → well_spaced items →
  split (String.append w0 (spaced items)) = items.*1
  ∧ (length items = 32%nat →
     ∀ t i key, sensor_fields !! i = Some key →
       make_packet t (split (String.append w0 (spaced items))) !! key
       = PStr <$> items.*1 !! (3 + i)%nat).
Proof.
  clear strptime localtime.
  intros Hw0 Hitems.
  assert (Hsplit : split (String.append w0 (spaced items)) = items.*1).
  { unfold split. destruct w0 as [|c w0]; [by apply split_spaced|].
    rewrite split_from_whitespace by done. by apply split_spaced. }
  split; [done|]. intros Hlen t i key Hkey. rewrite Hsplit.
  rewrite (make_packet_fields t _ i key Hkey).
  assert (Hi : (3 + i < length items.*1)%nat).
  { apply lookup_lt_Some in Hkey.
    change (length sensor_fields) with 29%nat in Hkey.
    rewrite length_fmap. lia. }
  apply lookup_lt_is_Some in Hi as [x Hx].
  by rewrite (list_lookup_total_correct _ _ _ Hx), Hx.
Qed.

(** ** More of the driver: the tolerance and the minute *)

Lemma total_micros_station_minute now k :
  total_micros now (station_minute now k)
  = (second now - 60 * k) * 1000000 + microsecond now.
Proof.
  clear strptime localtime US.
  unfold total_micros, station_minute, toordinal. cbn [year month day hour minute second microsecond].
  lia.
Qed.

(** X16: the station's timestamp has minutes only.  For a host minute
    from 1 to 58, so that the minutes before and after it are in the same
    hour: while the station shows the host's own minute, no second of the
    host's minute is out of tolerance;
    a station one minute behind is out of tolerance from 10 s into the
    host's minute on, and a station one minute ahead is until 50 s into
    it. *)
Theorem tolerance_by_minute now :
  time_of_day now → 1 ≤ minute now ≤ 58 →
  out_of_tolerance now (station_minute now 0) = false
  ∧ (out_of_tolerance now (station_minute now (-1)) = true
     ↔ 10 * 1000000 < second now * 1000000 + microsecond now)
  ∧ (out_of_tolerance now (station_minute now 1) = true
     ↔ second now * 1000000 + microsecond now < 50 * 1000000).
Proof.
  clear strptime localtime US.
  intros [Hs Hus] _. split; [|split].
  - apply not_true_is_false. rewrite out_of_tolerance_spec.
    rewrite total_micros_station_minute. unfold seconds. lia.
  - rewrite out_of_tolerance_spec, total_micros_station_minute.
    unfold seconds. lia.
  - rewrite out_of_tolerance_spec, total_micros_station_minute.
    unfold seconds. lia.
Qed.

(** ** More of the driver: two datasets in one read *)

Lemma spaced_app a b :
  spaced (a ++ b) = String.append (spaced a) (spaced b).
Proof.
  clear strptime localtime US.
  induction a as [|[t w] a IH]; [done|].
  cbn [app spaced]. by rewrite IH, !append_assoc.
Qed.

Lemma concat_text_app a b :
  concat_text (a ++ b) = String.append (concat_text a) (concat_text b).
Proof.
  clear strptime localtime US.
  induction a as [|t a IH]; [done|].
  cbn [app concat_text foldr]. fold (concat_text (a ++ b)) (concat_text a).
  by rewrite IH, append_assoc.
Qed.

Lemma word_append t t' : word t → word t' → word (String.append t t').
Proof.
  clear strptime localtime US.
  intros [Hne Ht] [_ Ht']. split.
  - destruct t; [done|]. by rewrite append_cons.
  - clear Hne. induction t as [|c t IH]; [done|].
    rewrite append_cons. cbn [list_ascii_of_string] in *.
    apply Forall_cons in Ht as [Hc Ht]. constructor; [done|by apply IH].
Qed.

(** Two runs of words, one after the other, read as one text: its words
    are the words of both, the last of the first run and the first of the
    second fused when no whitespace separates them. *)
Lemma split_two_runs a b :
  well_spaced a → well_spaced b → a ≠ [] → b ≠ [] →
  (length a + length b - 1
   ≤ length (split_from [] (String.append (spaced a) (spaced b))))%nat.
Proof.
  clear strptime localtime US.
  induction a as [|[t w] a IH]; [done|].
  intros (Ht & Hw & Hlast & Ha) Hb _ Hbne.
  destruct a as [|item a].
  - cbn [spaced]. rewrite (append_nil_r w).
    destruct w as [|c w].
    + rewrite (append_nil_r t).
      destruct b as [|[t' w'] b]; [done|]. destruct Hb as (Ht' & Hw' & Hl' & Hb).
      cbn [spaced]. rewrite <- append_assoc.
      change (String.append (String.append t t') (String.append w' (spaced b)))
        with (spaced ((String.append t t', w') :: b)).
      assert (Hws : well_spaced ((String.append t t', w') :: b)).
      { cbn [well_spaced]. split; [by apply word_append|]. by split. }
      rewrite (split_spaced _ Hws).
      rewrite length_fmap. cbn [length]. lia.
    + rewrite append_assoc.
      change (String.append t (String.append (String c w) (spaced b)))
        with (spaced ((t, String c w) :: b)).
      assert (Hws : well_spaced ((t, String c w) :: b)).
      { cbn [well_spaced]. split; [done|]. split; [done|]. by split. }
      rewrite (split_spaced _ Hws).
      rewrite length_fmap. cbn [length]. lia.
  - destruct w as [|c w]; [by specialize (Hlast eq_refl)|].
    specialize (IH Ha Hb ltac:(done) Hbne).
    change (spaced ((t, String c w) :: item :: a))
      with (String.append t (String.append (String c w) (spaced (item :: a)))).
    rewrite !append_assoc.
    rewrite split_from_word, app_nil_r by apply Ht.
    rewrite split_from_whitespace by done.
    rewrite (flush_word t) by (done || apply Ht).
    cbn [length app] in *. lia.
Qed.

(** X17: a second start block does not end the dataset in progress.  When
    two datasets of 32 words each follow one another with no block of
    another code between them, [read_usb_dataset] returns them as one text
    of 63 or 64 words, and the round rejects it: neither dataset yields a
    packet. *)
Theorem back_to_back_datasets_lost
    s h pre start1 run1 start2 run2 term rest items1 items2 :
  devh s = Some h →
  usb_in s
  = (Block <$> pre) ++ Block start1 :: (Block <$> run1)
    ++ Block start2 :: (Block <$> run2) ++ Block term :: rest →
  Forall block64 (pre ++ start1 :: run1 ++ start2 :: run2 ++ [term]) →
  Forall (λ r, ¬ starts r) pre → starts start1 → Forall continues run1 →
  starts start2 → Forall continues run2 → ¬ continues term →
  concat_text (block_text <$> start1 :: run1) = spaced items1 →
  concat_text (block_text <$> start2 :: run2) = spaced items2 →
  well_spaced items1 → well_spaced items2 →
  length items1 = 32%nat → length items2 = 32%nat →
  ∃ s1,
    read_usb_dataset s
    = (Ret (String.append (spaced items1) (spaced items2)), s1)
    ∧ (63 ≤ length (split (String.append (spaced items1) (spaced items2))))%nat
    ∧ usb_in s1 = rest
    ∧ (loop_round s).1 = Ret None
    ∧ yielded (loop_round s).2 = yielded s.
Proof.
  intros Hd Hu H64 Hpre Hs1 Hr1 Hs2 Hr2 Hterm Hd1 Hd2 Hw1 Hw2 Hl1 Hl2.
  assert (Hread : read_usb_dataset s
    = (Ret (String.append (spaced items1) (spaced items2)),
       after_blocks (pre ++ start1 :: (run1 ++ start2 :: run2) ++ [term]) s)).
  { rewrite (read_usb_dataset_run s h pre start1 (run1 ++ start2 :: run2)
               term rest); try done.
    - f_equal. f_equal. rewrite <- Hd1, <- Hd2.
      rewrite !fmap_cons, fmap_app, fmap_cons.
      change (block_text start1 :: (block_text <$> run1)
              ++ block_text start2 :: (block_text <$> run2))
        with ((block_text start1 :: (block_text <$> run1))
              ++ (block_text start2 :: (block_text <$> run2))).
      apply concat_text_app.
    - rewrite Hu, fmap_app, fmap_cons.
      repeat (rewrite <- app_assoc || rewrite <- app_comm_cons). reflexivity.
    - revert H64.
      repeat (rewrite <- app_assoc || rewrite <- app_comm_cons). done.
    - apply Forall_app. split; [done|]. constructor; [by left|done]. }
  assert (Hcount : (63 ≤ length (split (String.append (spaced items1)
                                          (spaced items2))))%nat).
  { pose proof (split_two_runs items1 items2 Hw1 Hw2) as Hlen.
    unfold split. destruct items1, items2; try done.
    specialize (Hlen ltac:(done) ltac:(done)). lia. }
  eexists. split; [exact Hread|]. split; [done|]. split.
  { apply after_blocks_usb_in. rewrite Hu.
    repeat (rewrite fmap_app || rewrite fmap_cons).
    repeat (rewrite <- app_assoc || rewrite <- app_comm_cons). reflexivity. }
  destruct (loop_round_rejected s _ _ Hread) as [msg Hround]; [left; lia|].
  rewrite Hround. cbn [fst snd]. split; [done|].
  rewrite yielded_add_other by done.
  pose proof (read_usb_dataset_keeps s) as (Hy & _).
  by rewrite Hread in Hy.
Qed.

End Driver.

Lemma round_packet_eq (x : res (option packet) * Sys) :
  returned_packet x = true → x = (Ret (Some (round_packet x)), x.2).
Proof.
  destruct x as [[[p|]|e|] s]; unfold returned_packet, round_packet; simpl;
    intros H; try discriminate; reflexivity.
Qed.


(** ** The statements on the sample station *)

Lemma C9_block_contribution_witness :
  ∃ s',
    read_usb_dataset s_in_time
    = (Ret (concat_text (block_text <$> sample_start :: sample_run)), s')
    ∧ Forall (λ r, block_text r
                   = join_chr (take (Z.to_nat (block_len r)) (drop 7 (data r)))
                ∧ String.length (block_text r)
                   = Nat.min (Z.to_nat (block_len r)) 57)
             (sample_start :: sample_run).
Proof.
  apply (C9_block_contribution s_in_time station [] sample_start sample_run
           idle_block []).
  - reflexivity.
  - reflexivity.
  - repeat constructor.
  - constructor.
  - reflexivity.
  - repeat constructor; vm_compute; tauto.
  - vm_compute. intros [H|[H|H]]; discriminate H.
Defined.

Lemma C2_reassembly_length_witness :
  ∃ dataset s',
    read_usb_dataset s_in_time = (Ret dataset, s')
    ∧ String.length dataset
      = sum_nat ((λ r, Nat.min (Z.to_nat (block_len r)) 57)
                 <$> sample_start :: sample_run)
    ∧ (Forall (λ r, block_len r ≤ 57) (sample_start :: sample_run) →
       Z.of_nat (String.length dataset)
       = declared_total (sample_start :: sample_run)).
Proof.
  apply (C2_reassembly_length s_in_time station [] sample_start sample_run
           idle_block []).
  - reflexivity.
  - reflexivity.
  - repeat constructor.
  - constructor.
  - reflexivity.
  - repeat constructor; vm_compute; tauto.
  - vm_compute. intros [H|[H|H]]; discriminate H.
Defined.

(** C2, as stated, fails on a middle block that declares 200 bytes: the
    dataset gets the 57 bytes that the block holds. *)
Lemma C2_counterexample :
  ¬ (∀ s start run term,
       transmission s start run term →
       ∃ dataset s',
         read_usb_dataset s = (Ret dataset, s')
         ∧ Z.of_nat (String.length dataset) = declared_total (start :: run)).
Proof.
  intros Hclaim.
  destruct (Hclaim s_overlong (mk_block 0x31 0 "") [overlong_block] idle_block)
    as (dataset & s' & Hread & Hlen).
  { split; [by eexists|]. split; [by exists []|].
    split; [repeat constructor|]. split; [reflexivity|].
    split; [repeat constructor; by left|].
    vm_compute. intros [H|[H|H]]; discriminate H. }
  vm_compute in Hread. injection Hread as <- _.
  vm_compute in Hlen. discriminate Hlen.
Qed.

Lemma C1_tokens_to_fields_witness :
  ∃ s2,
    loop_round strptime_padded utc_datetime 1 s_ahead_failing
    = (Raise NameError, s2)
    ∧ yielded s2 = yielded s_ahead_failing.
Proof.
  refine (proj2 (proj2 (proj2 (C1_tokens_to_fields strptime_padded utc_datetime
            1 s_ahead_failing (read_usb_dataset s_ahead_failing).2
            sample_dataset station_time _ _ _))) _ _).
  - vm_compute. reflexivity.
  - vm_compute. reflexivity.
  - vm_compute. reflexivity.
  - vm_compute. reflexivity.
  - exists []. right. reflexivity.
Defined.

Lemma C3_malformed_dataset_skipped_witness :
  ∃ msg,
    let s2 := add_event (ELog LOG_ERR msg) (read_usb_dataset s_short).2 in
    loop_round strptime_padded utc_datetime 1 s_short = (Ret None, s2)
    ∧ yielded s2 = yielded s_short
    ∧ ∀ n, genLoopPackets strptime_padded utc_datetime 1 (S n) s_short
           = genLoopPackets strptime_padded utc_datetime 1 n s2.
Proof.
  apply (C3_malformed_dataset_skipped strptime_padded utc_datetime 1 s_short
           (read_usb_dataset s_short).2 "2 2019-06-18 23:33 25.4").
  - vm_compute. reflexivity.
  - left. vm_compute. intros H. discriminate H.
Defined.


Lemma C5_transport_lost_witness :
  ∃ s2,
    loop_round strptime_padded utc_datetime 1 s_unplugged = (Ret None, s2)
    ∧ devh s2 = Some station
    ∧ the_time s2 = clock s2.
Proof.
  destruct (C5_transport_lost strptime_padded utc_datetime 1 s_unplugged
              (read_usb_dataset s_unplugged).2 [mkScan 0 None]
              (mkScan 0 (Some station)) station [])
    as (s2 & l & _ & _ & _ & _ & Hround & Hd & Ht & _).
  - vm_compute. reflexivity.
  - reflexivity.
  - by repeat constructor.
  - reflexivity.
  - by exists s2.
Defined.

(** C5, as stated, fails when the station is found but its interface
    cannot be claimed: the round raises [WeeWxIOError]. *)
Lemma C5_counterexample :
  ¬ (∀ s s1,
       read_usb_dataset s = (Raise USBError, s1) →
       (∃ a dev, a ∈ bus_in s ∧ scan_found a = Some dev) →
       ∃ s2, loop_round strptime_padded utc_datetime 1 s = (Ret None, s2)
             ∧ is_Some (devh s2)
             ∧ the_time s2 = clock s2).
Proof.
  intros Hclaim.
  destruct (Hclaim s_unclaimable (read_usb_dataset s_unclaimable).2)
    as (s2 & Hround & _).
  - vm_compute. reflexivity.
  - eexists _, _. split; [apply list_elem_of_here|reflexivity].
  - vm_compute in Hround. discriminate Hround.
Qed.

Lemma C7_setTime_raises_witness :
  (setTime utc_datetime (running t_sample [] [false] [])).1 = Raise NameError.
Proof.
  exact (proj1 (C7_setTime_raises utc_datetime (running t_sample [] [false] [])
                  station [] eq_refl (or_introl eq_refl))).
Defined.

Lemma C8_drift_discards_record_witness :
  ∃ s2,
    loop_round strptime_padded utc_datetime 1 s_late_failing
    = (Raise NameError, s2)
    ∧ yielded s2 = yielded s_late_failing.
Proof.
  apply (C8_drift_discards_record strptime_padded utc_datetime 1 s_late_failing
           (read_usb_dataset s_late_failing).2 sample_dataset station_time []).
  - vm_compute. reflexivity.
  - vm_compute. reflexivity.
  - vm_compute. reflexivity.
  - vm_compute. reflexivity.
  - left. reflexivity.
Defined.

Lemma C10_packet_keys_witness :
  let p := round_packet (loop_round strptime_padded utc_datetime 1 s_in_time) in
  dom p = packet_keys
  ∧ size p = 31%nat
  ∧ length sensor_fields = 29%nat
  ∧ NoDup ("dateTime"%string :: sensor_fields ++ ["usUnits"%string])
  ∧ Forall (λ k, is_Some (p !! String.append k "  ") ∧ p !! k = None)
           channel_temps
  ∧ p !! "usUnits" = Some (PUnits 1).
Proof.
  apply (C10_packet_keys strptime_padded utc_datetime 1 s_in_time _
           (loop_round strptime_padded utc_datetime 1 s_in_time).2).
  apply round_packet_eq. vm_compute. reflexivity.
Defined.

(** C10, as stated, counts 28 sensor fields: the packet of the sample
    dataset has 31 keys, 29 of them other than dateTime and usUnits. *)
Lemma C10_counterexample :
  ¬ (∀ s p s',
       loop_round strptime_padded utc_datetime 1 s = (Ret (Some p), s') →
       size p = 31%nat
       ∧ size (delete "dateTime"%string (delete "usUnits"%string p)) = 28%nat).
Proof.
  intros Hclaim.
  destruct (Hclaim s_in_time
              (round_packet (loop_round strptime_padded utc_datetime 1 s_in_time))
              (loop_round strptime_padded utc_datetime 1 s_in_time).2)
    as [_ Hsize].
  - apply round_packet_eq. vm_compute. reflexivity.
  - vm_compute in Hsize. discriminate Hsize.
Qed.


(** ** Further statements on the sample station *)

Lemma openPort_retry_grid_witness :
  clock (openPort s_absent).2 = clock s_absent + seconds 15 * 2 + seconds 1
  ∧ bus_in (openPort s_absent).2 = [].
Proof.
  apply (openPort_retry_grid s_absent
           [mkScan (seconds 2) None; mkScan (seconds 14) None]
           (mkScan (seconds 1) (Some station)) station []).
  - reflexivity.
  - reflexivity.
  - repeat constructor.
  - repeat constructor; vm_compute; congruence.
  - reflexivity.
Defined.

Lemma openPort_outcomes_witness :
  ∃ l, Forall scan_event l
       ∧ (openPort s_absent).1 = Ret tt
       ∧ devh (openPort s_absent).2 = Some station
       ∧ new_events s_absent (openPort s_absent).2 = l ++ [EOpen; EDetach; EClaim]
       ∧ openPort (openPort s_absent).2 = (Ret tt, (openPort s_absent).2).
Proof.
  apply (openPort_outcomes s_absent
           [mkScan (seconds 2) None; mkScan (seconds 14) None]
           (mkScan (seconds 1) (Some station)) station []).
  - reflexivity.
  - reflexivity.
  - repeat constructor.
  - reflexivity.
Defined.

Lemma short_block_leaves_loop_witness :
  read_usb_dataset s_truncated
  = (Raise IndexError,
     after_blocks ([sample_start] ++ [mkBlock 0 [x00; x00]]) s_truncated)
  ∧ loop_round strptime_padded utc_datetime 1 s_truncated
    = (Raise IndexError,
       after_blocks ([sample_start] ++ [mkBlock 0 [x00; x00]]) s_truncated)
  ∧ ∀ n, genLoopPackets strptime_padded utc_datetime 1 (S n) s_truncated
         = (Raise IndexError,
            after_blocks ([sample_start] ++ [mkBlock 0 [x00; x00]]) s_truncated).
Proof.
  apply (short_block_leaves_loop strptime_padded utc_datetime 1 s_truncated
           station [sample_start] (mkBlock 0 [x00; x00]) []).
  - reflexivity.
  - reflexivity.
  - repeat constructor.
  - right. exists [], sample_start, [].
    split; [reflexivity|]. split; [constructor|]. split; [reflexivity|constructor].
  - simpl. lia.
Defined.

Lemma transport_error_drops_blocks_witness :
  ∃ s1,
    read_usb_dataset s_unplugged = (Raise USBError, s1)
    ∧ usb_in s1 = []
    ∧ usb_in (loop_round strptime_padded utc_datetime 1 s_unplugged).2 = []
    ∧ (∀ p, (loop_round strptime_padded utc_datetime 1 s_unplugged).1
            ≠ Ret (Some p))
    ∧ yielded (loop_round strptime_padded utc_datetime 1 s_unplugged).2
      = yielded s_unplugged.
Proof.
  apply (transport_error_drops_blocks strptime_padded utc_datetime 1
           s_unplugged station [] (ReadFails 0) []).
  - reflexivity.
  - reflexivity.
  - constructor.
  - left. constructor.
  - right. by exists 0.
Defined.

Lemma framed_texts_reassemble_witness :
  ∃ s', read_usb_dataset s_framed
        = (Ret "2 2019-06-18 23:33 25.4 58 19.5 69 0.0"%string, s')
        ∧ usb_in s' = [].
Proof.
  apply (framed_texts_reassemble s_framed station [idle_block]
           "2 2019-06-18 23:33 25.4 58 "
           [(0x32, "19.5 69 "%string); (0x33, "0.0"%string)] idle_block []).
  - reflexivity.
  - reflexivity.
  - repeat constructor.
  - repeat constructor. vm_compute. discriminate.
  - vm_compute. intros [H|[H|H]]; discriminate H.
  - repeat constructor; simpl; (tauto || lia).
  - simpl. lia.
Defined.

Lemma sample_items_well_spaced : well_spaced sample_items.
Proof.
  unfold sample_items.
  repeat (split; [split; [discriminate|repeat constructor]|];
          split; [repeat constructor|];
          split; [first [discriminate|reflexivity]|]).
  exact I.
Qed.

Lemma spaced_words_round_trip_witness :
  split (String.append " " (spaced sample_items)) = sample_items.*1
  ∧ (length sample_items = 32%nat →
     ∀ t i key, sensor_fields !! i = Some key →
       make_packet 1 t (split (String.append " " (spaced sample_items))) !! key
       = PStr <$> sample_items.*1 !! (3 + i)%nat).
Proof.
  apply (spaced_words_round_trip 1 " " sample_items).
  - repeat constructor.
  - exact sample_items_well_spaced.
Defined.

Lemma back_to_back_datasets_lost_witness :
  ∃ s1,
    read_usb_dataset s_twice
    = (Ret (String.append (spaced sample_items) (spaced sample_items)), s1)
    ∧ (63 ≤ length (split (String.append (spaced sample_items)
                                         (spaced sample_items))))%nat
    ∧ usb_in s1 = []
    ∧ (loop_round strptime_padded utc_datetime 1 s_twice).1 = Ret None
    ∧ yielded (loop_round strptime_padded utc_datetime 1 s_twice).2
      = yielded s_twice.
Proof.
  apply (back_to_back_datasets_lost strptime_padded utc_datetime 1 s_twice
           station [] sample_start sample_run sample_start sample_run
           idle_block [] sample_items sample_items).
  - reflexivity.
  - reflexivity.
  - repeat constructor.
  - constructor.
  - reflexivity.
  - repeat constructor; vm_compute; tauto.
  - reflexivity.
  - repeat constructor; vm_compute; tauto.
  - vm_compute. intros [H|[H|H]]; discriminate H.
  - vm_compute. reflexivity.
  - vm_compute. reflexivity.
  - exact sample_items_well_spaced.
  - exact sample_items_well_spaced.
  - reflexivity.
  - reflexivity.
Defined.

Lemma loop_round_pacing_witness :
  ∃ dataset s1,
    read_usb_dataset s_in_time = (Ret dataset, s1)
    ∧ round_packet (loop_round strptime_padded utc_datetime 1 s_in_time)
      = make_packet 1 (the_time s_in_time) (split dataset)
    ∧ the_time (loop_round strptime_padded utc_datetime 1 s_in_time).2
      = clock (loop_round strptime_padded utc_datetime 1 s_in_time).2
    ∧ the_time (loop_round strptime_padded utc_datetime 1 s_in_time).2
      = Z.max (the_time s_in_time + seconds loop_interval) (clock s1).
Proof.
  apply (loop_round_pacing strptime_padded utc_datetime 1 s_in_time).
  apply round_packet_eq. vm_compute. reflexivity.
Defined.

Lemma init_outcomes_witness :
  the_time (init utc_datetime s_absent).2 = clock s_absent
  ∧ devh (init utc_datetime s_absent).2 = Some station
  ∧ (∀ r, ctl_in s_absent = true :: true :: r →
       (init utc_datetime s_absent).1 = Ret tt)
  ∧ (∀ r, ctl_in s_absent = false :: r ∨ ctl_in s_absent = true :: false :: r →
       (init utc_datetime s_absent).1 = Raise NameError).
Proof.
  apply (init_outcomes utc_datetime s_absent
           [mkScan (seconds 2) None; mkScan (seconds 14) None]
           (mkScan (seconds 1) (Some station)) station []).
  - reflexivity.
  - repeat constructor.
  - reflexivity.
Defined.

Lemma setTime_transfers_witness :
  let s := running t_sample [] [true; true] [] in
  (ctl_in s = [true; true] →
   let now := utc_datetime (clock s) in
   (setTime utc_datetime s).1 = Ret tt
   ∧ new_events s (setTime utc_datetime s).2
     = [EControl (date_command now); EControl (time_command now);
        ELog LOG_INFO (MsgSetTime now)]
   ∧ ctl_in (setTime utc_datetime s).2 = [])
  ∧ (ctl_in s = [false] →
     new_events s (setTime utc_datetime s).2
     = [EControl (date_command (utc_datetime (clock s)))]
     ∧ ctl_in (setTime utc_datetime s).2 = [])
  ∧ the_time (setTime utc_datetime s).2 = the_time s
  ∧ clock (setTime utc_datetime s).2 = clock s
  ∧ devh (setTime utc_datetime s).2 = devh s
  ∧ usb_in (setTime utc_datetime s).2 = usb_in s.
Proof.
  exact (setTime_transfers utc_datetime (running t_sample [] [true; true] [])
           station [] eq_refl).
Defined.

Lemma setTime_payload_bytes_witness :
  length (date_command station_time) = 8%nat
  ∧ length (time_command station_time) = 8%nat
  ∧ head (date_command station_time) = Some 0xfc
  ∧ last (date_command station_time) = Some 0xfd
  ∧ head (time_command station_time) = Some 0xfc
  ∧ last (time_command station_time) = Some 0xfd
  ∧ Forall (λ b, 0 ≤ b < 256) (time_command station_time)
  ∧ (Forall (λ b, 0 ≤ b < 256) (date_command station_time)
     ↔ 2000 ≤ year station_time ≤ 2255).
Proof.
  apply (setTime_payload_bytes station_time); simpl; lia.
Defined.

Lemma tolerance_by_minute_witness :
  let now := mkDatetime 2019 6 18 23 33 40 0 in
  out_of_tolerance now (station_minute now 0) = false
  ∧ (out_of_tolerance now (station_minute now (-1)) = true
     ↔ 10 * 1000000 < second now * 1000000 + microsecond now)
  ∧ (out_of_tolerance now (station_minute now 1) = true
     ↔ second now * 1000000 + microsecond now < 50 * 1000000).
Proof.
  apply (tolerance_by_minute (mkDatetime 2019 6 18 23 33 40 0)).
  - unfold time_of_day. simpl. lia.
  - simpl. lia.
Defined.

Lemma read_usb_block_edges_witness :
  let s := running t_sample [ControlFails] [] [] in
  (read_usb_block "d5" s).1 = Raise USBError
  ∧ (EInterruptRead ∉ new_events s (read_usb_block "d5" s).2)
  ∧ clock (read_usb_block "d5" s).2 = clock s.
Proof.
  refine (proj1 (proj2 (proj2 (read_usb_block_edges "d5"
            (running t_sample [ControlFails] [] [])))) [] _ _ _).
  - by eexists.
  - set_solver.
  - reflexivity.
Defined.

Lemma do_options_modes_witness :
  let s1 := (init utc_datetime s_configure).2 in
  let now := utc_datetime (clock s1) in
  (do_options strptime_padded utc_datetime 1 0 false true s_configure).1 = Ret tt
  ∧ devh (do_options strptime_padded utc_datetime 1 0 false true s_configure).2
    = None
  ∧ new_events s1
      (do_options strptime_padded utc_datetime 1 0 false true s_configure).2
    = [EControl (date_command now); EControl (time_command now);
       ELog LOG_INFO (MsgSetTime now); ERelease].
Proof.
  refine (proj1 (proj2 (proj2 (do_options_modes strptime_padded utc_datetime 1
            0 s_configure) (init utc_datetime s_configure).2 _)) [] _).
  - vm_compute. reflexivity.
  - vm_compute. reflexivity.
Defined.
